(** * Client Subnet option codec (src/base/opt/rfc7871.rs) and the
    database-backed zone of examples/other/mysql-zone.rs. *)

From Stdlib Require Import String Ascii ZArith List Bool Lia.
Import ListNotations.
Open Scope Z_scope.

(** ** Rust execution outcomes *)

(** Rust integer arithmetic depends on the build profile: with overflow
    checks enabled (the debug and test profiles), an overflowing subtraction
    and a shift by at least the bit width panic; without them (release), the
    subtraction wraps around and the shift amount is taken modulo the width.
    Every definition below takes the flag [oc] ("overflow checks enabled"). *)
Inductive PanicKind : Type :=
| ShiftLeftOverflow       (* attempt to shift left with overflow *)
| SubtractOverflow        (* attempt to subtract with overflow *)
| SliceIndexOutOfRange    (* range end index out of range for slice *)
| Unimplemented           (* unimplemented!() *)
| UnwrapFailed.           (* called `unwrap()` on an `Err`/`None` value *)

(** A computation returns [Ok], returns [Err] through [?], or panics. *)
Inductive Outcome (E A : Type) : Type :=
| Ok (a : A)
| Err (e : E)
| Panicked (p : PanicKind).
Arguments Ok {E A} a.
Arguments Err {E A} e.
Arguments Panicked {E A} p.

Definition bind {E A B} (m : Outcome E A) (f : A -> Outcome E B) : Outcome E B :=
  match m with
  | Ok a => f a
  | Err e => Err e
  | Panicked p => Panicked p
  end.

Notation "x <- m ;; f" := (bind m (fun x => f))
  (at level 61, m at next level, right associativity).
Notation "' p <- m ;; f" := (bind m (fun p => f))
  (at level 61, p pattern, m at next level, right associativity).

(** [u8 << usize]. *)
Definition shl_u8 {E} (oc : bool) (x n : Z) : Outcome E Z :=
  if n <? 8 then Ok (Z.land (Z.shiftl x n) 255)
  else if oc then Panicked ShiftLeftOverflow
  else Ok (Z.land (Z.shiftl x (n mod 8)) 255).

(** [usize - usize]. *)
Definition sub_usize {E} (oc : bool) (a b : Z) : Outcome E Z :=
  if b <=? a then Ok (a - b)
  else if oc then Panicked SubtractOverflow
  else Ok (a - b + 2 ^ 64).

(** [&a[..n]]. *)
Definition slice_to {E} (a : list Z) (n : Z) : Outcome E (list Z) :=
  if n <=? Z.of_nat (length a) then Ok (firstn (Z.to_nat n) a)
  else Panicked SliceIndexOutOfRange.

Fixpoint and_at (l : list Z) (i : nat) (m : Z) : list Z :=
  match l, i with
  | [], _ => []
  | b :: l', O => Z.land b m :: l'
  | b :: l', S i' => b :: and_at l' i' m
  end.

(** [if let Some(e) = a.get_mut(i) { *e &= m; }] *)
Definition get_mut_and (a : list Z) (i m : Z) : list Z :=
  if i <? Z.of_nat (length a) then and_at a (Z.to_nat i) m else a.

(** ** Byte cursor and output buffer *)

(** Modelled from the spec: [Parser] (src/base/octets.rs is not part of the
    sources). The parser is the list of bytes not yet read; reads are
    big-endian and a read past the end fails with [ShortInput]. *)
Inductive ParseError : Type :=
| ShortInput
| Form (msg : string).

Definition parse_u8 (p : list Z) : Outcome ParseError (Z * list Z) :=
  match p with
  | b :: p' => Ok (b, p')
  | [] => Err ShortInput
  end.

Definition parse_u16 (p : list Z) : Outcome ParseError (Z * list Z) :=
  match p with
  | hi :: lo :: p' => Ok (hi * 256 + lo, p')
  | _ => Err ShortInput
  end.

(** [parser.parse_buf(buf)]: fills [buf] (of length [n]) from the parser. *)
Definition parse_buf (p : list Z) (n : nat) : Outcome ParseError (list Z * list Z) :=
  if (n <=? length p)%nat then Ok (firstn n p, skipn n p) else Err ShortInput.

(** Modelled from the spec: [OctetsBuilder] (src/base/octets.rs is not part
    of the sources). An append-only buffer with a capacity ceiling; an
    append that does not fit fails with [ShortBuf] and writes nothing. *)
Inductive ShortBuf : Type := ShortBufErr.

Record Target := mkTarget { octets : list Z; capacity : nat }.

Definition append_slice (t : Target) (s : list Z) : Outcome ShortBuf Target :=
  if (length (octets t) + length s <=? capacity t)%nat
  then Ok (mkTarget (octets t ++ s) (capacity t))
  else Err ShortBufErr.

Definition compose_u8 (x : Z) (t : Target) : Outcome ShortBuf Target :=
  append_slice t [x].

Definition compose_u16 (x : Z) (t : Target) : Outcome ShortBuf Target :=
  append_slice t [x / 256; x mod 256].

(** Modelled from the spec: [OctetsBuilder::append_all]. A failure aborts
    the whole value: the target is truncated back to the length it had
    before [op], so after [Err] the caller's target is the original one. *)
Definition append_all (t : Target) (op : Target -> Outcome ShortBuf Target)
  : Outcome ShortBuf Target :=
  match op t with
  | Ok t' => Ok t'
  | Err _ => Err ShortBufErr
  | Panicked p => Panicked p
  end.

(** ** ClientSubnet *)

(** [IpAddr]: the octets of an [Ipv4Addr] (4) or an [Ipv6Addr] (16). *)
Inductive IpAddr : Type :=
| V4 (o : list Z)
| V6 (o : list Z).

Record ClientSubnet := ClientSubnet_new {
  source_prefix_len : Z;   (* u8 *)
  scope_prefix_len : Z;    (* u8 *)
  addr : IpAddr
}.

(** [fn prefix_bytes(bits: usize) -> (usize, u8)] *)
Definition prefix_bytes {E} (oc : bool) (bits : Z) : Outcome E (Z * Z) :=
  let n := (bits + 7) / 8 in
  mask <- (match 8 - bits mod 8 with
           | Z0 => Ok 255
           | n' => shl_u8 oc 255 n'
           end) ;;
  Ok (n, mask).

(** The body shared by the [1 =>] (width 4) and [2 =>] (width 16) arms of
    [ClientSubnet::parse]. *)
Definition parse_addr_buf (oc : bool) (width : nat) (prefix_bytes mask : Z)
    (p : list Z) : Outcome ParseError (list Z * list Z) :=
  let buf := repeat 0 width in
  if prefix_bytes >? Z.of_nat (length buf) then
    Err (Form "invalid address length in client subnet option")
  else
    s <- slice_to buf prefix_bytes ;;
    '(read, p) <- parse_buf p (length s) ;;
    let buf := read ++ skipn (length s) buf in
    i <- sub_usize oc prefix_bytes 1 ;;
    Ok (get_mut_and buf i mask, p).

(** [ClientSubnet::parse]: returns the value and the unread bytes. *)
Definition parse (oc : bool) (p : list Z) : Outcome ParseError (ClientSubnet * list Z) :=
  '(family, p) <- parse_u16 p ;;
  '(source_prefix_len, p) <- parse_u8 p ;;
  '(scope_prefix_len, p) <- parse_u8 p ;;
  '(pb, mask) <- prefix_bytes oc source_prefix_len ;;
  if family =? 1 then
    '(buf, p) <- parse_addr_buf oc 4 pb mask p ;;
    Ok (ClientSubnet_new source_prefix_len scope_prefix_len (V4 buf), p)
  else if family =? 2 then
    '(buf, p) <- parse_addr_buf oc 16 pb mask p ;;
    Ok (ClientSubnet_new source_prefix_len scope_prefix_len (V6 buf), p)
  else Err (Form "invalid client subnet address family").

(** The body shared by the [IpAddr::V4] and [IpAddr::V6] arms of
    [ClientSubnet::compose]. *)
Definition compose_addr (oc : bool) (family : Z) (v : ClientSubnet)
    (octs : list Z) (prefix_bytes mask : Z) (t : Target) : Outcome ShortBuf Target :=
  t <- compose_u16 family t ;;
  t <- compose_u8 (source_prefix_len v) t ;;
  t <- compose_u8 (scope_prefix_len v) t ;;
  i <- sub_usize oc prefix_bytes 1 ;;
  let array := get_mut_and octs i mask in
  s <- slice_to array prefix_bytes ;;
  append_slice t s.

(** [ClientSubnet::compose]. *)
Definition compose (oc : bool) (v : ClientSubnet) (t : Target) : Outcome ShortBuf Target :=
  '(pb, mask) <- prefix_bytes oc (source_prefix_len v) ;;
  append_all t (fun t =>
    match addr v with
    | V4 o => compose_addr oc 1 v o pb mask t
    | V6 o => compose_addr oc 2 v o pb mask t
    end).

(** ** The canonical form, following the spec's words *)

(** Refinement target: the address masked to [bits] bits, every bit past
    the prefix cleared, whole tail bytes included. Byte [i] keeps its
    [min 8 (max 0 (bits - 8 i))] most significant bits. *)
Definition keep_mask (k : Z) : Z := Z.shiftl (Z.ones k) (8 - k).

Fixpoint mask_bits (bits : Z) (l : list Z) : list Z :=
  match l with
  | [] => []
  | b :: l' => Z.land b (keep_mask (Z.max 0 (Z.min 8 bits))) :: mask_bits (bits - 8) l'
  end.

Definition canonicalize_addr (bits : Z) (a : IpAddr) : IpAddr :=
  match a with
  | V4 o => V4 (mask_bits bits o)
  | V6 o => V6 (mask_bits bits o)
  end.

Definition canonicalize (v : ClientSubnet) : ClientSubnet :=
  ClientSubnet_new (source_prefix_len v) (scope_prefix_len v)
    (canonicalize_addr (source_prefix_len v) (addr v)).

Definition family_code (a : IpAddr) : Z :=
  match a with V4 _ => 1 | V6 _ => 2 end.

Definition addr_octets (a : IpAddr) : list Z :=
  match a with V4 o => o | V6 o => o end.

(** The wire form the spec describes: family, the two prefix lengths, and
    the first [ceil(source_prefix_len / 8)] bytes of the masked address. *)
Definition wire_form (v : ClientSubnet) : list Z :=
  [0; family_code (addr v); source_prefix_len v; scope_prefix_len v]
  ++ firstn (Z.to_nat ((source_prefix_len v + 7) / 8))
       (mask_bits (source_prefix_len v) (addr_octets (addr v))).

(** Values the Rust types admit: [u8] fields and 4 or 16 address octets. *)
Definition is_byte (b : Z) : Prop := 0 <= b < 256.

Definition wf_addr (a : IpAddr) : Prop :=
  match a with
  | V4 o => length o = 4%nat /\ Forall is_byte o
  | V6 o => length o = 16%nat /\ Forall is_byte o
  end.

Definition wf_client_subnet (v : ClientSubnet) : Prop :=
  is_byte (source_prefix_len v) /\ is_byte (scope_prefix_len v) /\ wf_addr (addr v).

(** Address width in bits: 32 for IPv4, 128 for IPv6. *)
Definition addr_width_bits (a : IpAddr) : Z :=
  match a with V4 _ => 32 | V6 _ => 128 end.

(** The mask [prefix_bytes] computes when the shift does not overflow. *)
Definition last_mask (bits : Z) : Z :=
  keep_mask (if bits mod 8 =? 0 then 8 else bits mod 8).

Ltac fits :=
  match goal with
  | |- context [(?a <=? ?b)%nat] =>
      rewrite (proj2 (Nat.leb_le a b)) by (simpl; rewrite ?length_app; simpl; lia)
  end.

Ltac split_leb :=
  match goal with
  | |- context [(?a <=? ?b)%nat] => destruct (Nat.leb_spec a b)
  end.

(** ** The database-backed zone (examples/other/mysql-zone.rs) *)

(** The collaborators of the example: name and record-type conversions and
    [ZoneRecordData::scan] of the domain crate, and string comparison of
    the MySQL server. They are left abstract: every statement below holds
    for any of them. *)
Class ZoneEnv (Name Rtype RecordData : Type) := {
  name_to_string : Name -> string;              (* Display for Name / StoredName *)
  rtype_to_string : Rtype -> string;            (* Display for Rtype *)
  name_bytes_from_str : string -> option Name;  (* Name::bytes_from_str *)
  rtype_from_str : string -> option Rtype;      (* Rtype::from_str *)
  zone_record_data_scan : Rtype -> list string -> option RecordData;
                                                (* ZoneRecordData::scan; None is Err *)
  sql_eq : string -> string -> bool             (* `=` on the string columns *)
}.

(** [str::split_ascii_whitespace]. *)
Definition is_ascii_whitespace (c : ascii) : bool :=
  let n := nat_of_ascii c in
  (n =? 32)%nat || (n =? 9)%nat || (n =? 10)%nat || (n =? 12)%nat || (n =? 13)%nat.

Definition flush_word (word : list ascii) : list string :=
  match word with
  | [] => []
  | _ => [string_of_list_ascii word]
  end.

Fixpoint split_words (s : string) (word : list ascii) : list string :=
  match s with
  | EmptyString => flush_word word
  | String c s' =>
      if is_ascii_whitespace c then flush_word word ++ split_words s' []
      else split_words s' (word ++ [c])
  end.

Definition split_ascii_whitespace (s : string) : list string := split_words s [].

(** A word without ASCII whitespace. *)
Definition ws_free (l : list ascii) : Prop :=
  Forall (fun c => is_ascii_whitespace c = false) l.

Inductive Rcode : Type := NOERROR | NXDOMAIN | SERVFAIL.

Inductive OutOfZone : Type := OutOfZoneErr.

(** [unwrap()] on a [Result] or [Option]. *)
Definition unwrap {E A} (x : option A) : Outcome E A :=
  match x with
  | Some a => Ok a
  | None => Panicked UnwrapFailed
  end.

Section DatabaseZone.
Context {Name Rtype RecordData : Type}.

Record Rrset := mkRrset {
  rrset_rtype : Rtype;
  rrset_ttl : Z;
  rrset_data : list RecordData
}.

Definition Rrset_new (rtype : Rtype) (ttl : Z) : Rrset := mkRrset rtype ttl [].

Definition push_data (r : Rrset) (d : RecordData) : Rrset :=
  mkRrset (rrset_rtype r) (rrset_ttl r) (rrset_data r ++ [d]).

Record Answer := mkAnswer { rcode : Rcode; answer : list Rrset }.

Definition Answer_new (rc : Rcode) : Answer := mkAnswer rc [].

Definition add_answer (a : Answer) (r : Rrset) : Answer :=
  mkAnswer (rcode a) (answer a ++ [r]).

(** A walk is observed through the calls of the visitor [op], in order,
    and the panic that ended it, if any. *)
Definition WalkTrace : Type := (list (Name * Rrset) * option PanicKind)%type.

(** [trait ReadableZone]; the futures of the [_async] methods are
    represented by the value they complete with. *)
Class ReadableZone (Zn : Type) := {
  is_async : Zn -> bool;
  query : Zn -> Name -> Rtype -> Outcome OutOfZone Answer;
  walk : Zn -> WalkTrace;
  query_async : Zn -> Name -> Rtype -> Outcome OutOfZone Answer;
  walk_async : Zn -> WalkTrace
}.

Context `{ZoneEnv Name Rtype RecordData}.

(** A row of [domains D, records R] joined on [D.id = R.domain_id]; the
    record columns are NULL-able ([None]), and [r_ttl] is [None] when the
    column does not decode as the [u32] that [try_get] asks for. *)
Record Row := mkRow {
  d_name : string;
  r_name : option string;
  r_type : option string;
  r_content : option string;
  r_ttl : option Z
}.

(** The connection pool: the rows of the database, or a failing server. *)
Inductive Db : Type :=
| DbUp (rows : list Row)
| DbDown.

Record DatabaseNode := DatabaseNode_new { node_db_pool : Db; node_apex_name : Name }.

Record DatabaseReadZone := DatabaseReadZone_new { db_pool : Db; apex_name : Name }.

(** [ZoneStore::read] for [DatabaseNode]. *)
Definition read (n : DatabaseNode) : DatabaseReadZone :=
  DatabaseReadZone_new (node_db_pool n) (node_apex_name n).

Definition sql_opt_eq (col : option string) (x : string) : bool :=
  match col with
  | Some c => sql_eq c x
  | None => false   (* NULL = ? is not true *)
  end.

(** [WHERE D.name = ? AND D.id = R.domain_id AND R.name = ? AND R.type = ?] *)
Definition row_matches (apex qname qtype : string) (r : Row) : bool :=
  sql_eq (d_name r) apex && sql_opt_eq (r_name r) qname && sql_opt_eq (r_type r) qtype.

(** [fetch_one] of the [LIMIT 1] query: the first matching row, or [None]
    ([Err]) when no row matches or the server fails. *)
Definition fetch_one_record (db : Db) (apex qname qtype : string) : option Row :=
  match db with
  | DbUp rows => find (row_matches apex qname qtype) rows
  | DbDown => None
  end.

(** [DatabaseReadZone::query_async]. *)
Definition DatabaseReadZone_query_async (z : DatabaseReadZone) (qname : Name) (qtype : Rtype)
  : Outcome OutOfZone Answer :=
  match fetch_one_record (db_pool z) (name_to_string (apex_name z))
          (name_to_string qname) (rtype_to_string qtype) with
  | Some row =>
      let answer := Answer_new NOERROR in
      ttl <- unwrap (r_ttl row) ;;
      let rrset := Rrset_new qtype ttl in
      content <- unwrap (r_content row) ;;
      let content_strings := split_ascii_whitespace content in
      match zone_record_data_scan qtype content_strings with
      | Some data => Ok (add_answer answer (push_data rrset data))
      | None => Ok (Answer_new SERVFAIL)   (* eprintln!, then SERVFAIL *)
      end
  | None => Ok (Answer_new NXDOMAIN)
  end.

(** One iteration of the loop of [walk_async]: the visitor call it makes,
    if any. *)
Definition walk_row (row : Row) : Outcome Empty_set (option (Name * Rrset)) :=
  owner <- unwrap (r_name row) ;;
  owner <- unwrap (name_bytes_from_str owner) ;;
  rtype <- unwrap (r_type row) ;;
  rtype <- unwrap (rtype_from_str rtype) ;;
  ttl <- unwrap (r_ttl row) ;;
  let rrset := Rrset_new rtype ttl in
  content <- unwrap (r_content row) ;;
  let content_strings := split_ascii_whitespace content in
  match zone_record_data_scan rtype content_strings with
  | Some data => Ok (Some (owner, push_data rrset data))
  | None => Ok None   (* eprintln!, the row is skipped *)
  end.

Fixpoint walk_rows (rows : list Row) : WalkTrace :=
  match rows with
  | [] => ([], None)
  | row :: rows' =>
      match walk_row row with
      | Ok (Some call) => let '(calls, st) := walk_rows rows' in (call :: calls, st)
      | Ok None => walk_rows rows'
      | Err e => match e with end
      | Panicked p => ([], Some p)
      end
  end.

(** [DatabaseReadZone::walk_async]: [fetch_all(..).await.unwrap()] over
    [WHERE D.name = ? AND D.id = R.domain_id]. *)
Definition DatabaseReadZone_walk_async (z : DatabaseReadZone) : WalkTrace :=
  match db_pool z with
  | DbUp rows =>
      walk_rows (filter (fun r => sql_eq (d_name r) (name_to_string (apex_name z))) rows)
  | DbDown => ([], Some UnwrapFailed)
  end.

#[global] Instance DatabaseReadZone_ReadableZone : ReadableZone DatabaseReadZone := {
  is_async _ := true;
  query _ _ _ := Panicked Unimplemented;
  walk _ := ([], Some Unimplemented);
  query_async := DatabaseReadZone_query_async;
  walk_async := DatabaseReadZone_walk_async
}.

End DatabaseZone.

(** A concrete environment for running the zone on small inputs: names and
    types are their text, [A] records hold one word. *)
Definition demo_scan (rtype : string) (words : list string) : option (list string) :=
  if String.eqb rtype "A" then
    match words with
    | [w] => Some [w]
    | _ => None
    end
  else None.

#[global] Instance demo_env : ZoneEnv string string (list string) := {
  name_to_string n := n;
  rtype_to_string t := t;
  name_bytes_from_str s := Some s;
  rtype_from_str s := Some s;
  zone_record_data_scan := demo_scan;
  sql_eq := String.eqb
}.

(** ** Lemmas on the codec *)


Lemma prefix_bytes_spec {E} (oc : bool) (bits : Z) :
  0 <= bits -> (oc = false \/ bits mod 8 <> 0) ->
  prefix_bytes (E := E) oc bits = Ok ((bits + 7) / 8, last_mask bits).
Proof.
  intros Hb Hoc. unfold prefix_bytes, last_mask.
  assert (Hr : 0 <= bits mod 8 < 8) by (apply Z.mod_pos_bound; lia).
  destruct (bits mod 8) as [|r|r] eqn:E8; [| |lia].
  - destruct Hoc as [->|Hoc]; [reflexivity|lia].
  - assert (Hc : Z.pos r = 1 \/ Z.pos r = 2 \/ Z.pos r = 3 \/ Z.pos r = 4
                \/ Z.pos r = 5 \/ Z.pos r = 6 \/ Z.pos r = 7) by lia.
    destruct Hc as [H|[H|[H|[H|[H|[H|H]]]]]]; injection H as ->; reflexivity.
Qed.

Lemma and_at_length l i m : length (and_at l i m) = length l.
Proof.
  revert i; induction l as [|b l IH]; intros [|i]; simpl; auto.
Qed.

Lemma and_at_app_l l1 l2 i m :
  (i < length l1)%nat -> and_at (l1 ++ l2) i m = and_at l1 i m ++ l2.
Proof.
  revert i; induction l1 as [|b l1 IH]; intros [|i] Hi; simpl in *; try lia; auto.
  rewrite IH by lia; reflexivity.
Qed.

Lemma and_at_firstn n l i m :
  and_at (firstn n l) i m = firstn n (and_at l i m).
Proof.
  revert l i; induction n as [|n IH]; intros [|b l] [|i]; simpl; auto.
  rewrite IH; reflexivity.
Qed.

Lemma and_at_idem l i m : and_at (and_at l i m) i m = and_at l i m.
Proof.
  revert i; induction l as [|b l IH]; intros [|i]; simpl; auto.
  - rewrite <- Z.land_assoc, Z.land_diag; reflexivity.
  - rewrite IH; reflexivity.
Qed.

Lemma mask_bits_length bits l : length (mask_bits bits l) = length l.
Proof.
  revert bits; induction l as [|b l IH]; intros bits; simpl; auto.
Qed.

Lemma mask_bits_nonpos bits l : bits <= 0 -> mask_bits bits l = repeat 0 (length l).
Proof.
  revert bits; induction l as [|b l IH]; intros bits Hb; simpl; auto.
  rewrite IH by lia.
  replace (Z.max 0 (Z.min 8 bits)) with 0 by lia.
  rewrite Z.land_0_r; reflexivity.
Qed.

Lemma land_keep8 b : is_byte b -> Z.land b (keep_mask 8) = b.
Proof.
  intros Hb. change (keep_mask 8) with (Z.ones 8).
  rewrite Z.land_ones by lia. apply Z.mod_small. exact Hb.
Qed.

Lemma last_mask_minus8 bits : last_mask (bits - 8) = last_mask bits.
Proof.
  unfold last_mask.
  replace (bits mod 8) with ((bits - 8) mod 8); [reflexivity|].
  replace bits with ((bits - 8) + 1 * 8) at 2 by lia.
  rewrite Z.mod_add by lia; reflexivity.
Qed.

(** The bytes [compose] and [parse] keep, followed by the zero tail, are
    the canonical masked address. *)
Lemma mask_tail o bits :
  Forall is_byte o -> 1 <= bits <= 8 * Z.of_nat (length o) ->
  firstn (Z.to_nat ((bits + 7) / 8))
    (and_at o (Z.to_nat ((bits + 7) / 8 - 1)) (last_mask bits))
  ++ repeat 0 (length o - Z.to_nat ((bits + 7) / 8))
  = mask_bits bits o.
Proof.
  revert bits; induction o as [|b o IH]; intros bits Hf Hb;
    simpl length in Hb; [lia|].
  inversion Hf as [|? ? Hbyte Hf']; subst.
  destruct (Z_le_gt_dec bits 8) as [Hle|Hgt].
  - assert (Hpb : (bits + 7) / 8 = 1) by (symmetry; apply Z.div_unique with (bits - 1); lia).
    rewrite Hpb. simpl.
    rewrite mask_bits_nonpos by lia. rewrite Nat.sub_0_r.
    replace (Z.max 0 (Z.min 8 bits)) with bits by lia.
    unfold last_mask.
    destruct (Z.eqb_spec (bits mod 8) 0) as [H0|H0].
    + assert (bits = 8).
      { apply Z.mod_divide in H0; [|lia]. destruct H0 as [k Hk]. nia. }
      subst; reflexivity.
    + assert (bits <> 8) by (intros ->; apply H0; reflexivity).
      rewrite Z.mod_small by lia; reflexivity.
  - assert (Hpb : (bits + 7) / 8 = (bits - 8 + 7) / 8 + 1).
    { replace (bits + 7) with ((bits - 8 + 7) + 1 * 8) by lia.
      rewrite Z.div_add by lia; reflexivity. }
    assert (Hpb1 : 1 <= (bits - 8 + 7) / 8).
    { apply Z.div_le_lower_bound; lia. }
    rewrite Hpb.
    replace ((bits - 8 + 7) / 8 + 1 - 1) with ((bits - 8 + 7) / 8 - 1 + 1) by lia.
    rewrite !Z2Nat.inj_add by lia. rewrite !Nat.add_1_r.
    simpl. rewrite <- last_mask_minus8.
    replace (Z.max 0 (Z.min 8 bits)) with 8 by lia.
    rewrite land_keep8 by exact Hbyte.
    f_equal. apply IH; [exact Hf'|lia].
Qed.

Lemma skipn_repeat {A} k (x : A) n : skipn k (repeat x n) = repeat x (n - k).
Proof.
  revert n; induction k as [|k IH]; intros [|n]; simpl; auto.
Qed.

Lemma prefix_bytes_le (o : list Z) (bits : Z) :
  0 <= bits <= 8 * Z.of_nat (length o) ->
  0 <= (bits + 7) / 8 <= Z.of_nat (length o).
Proof.
  intros Hb; split; [apply Z.div_pos; lia|].
  assert ((bits + 7) / 8 < Z.of_nat (length o) + 1) by (apply Z.div_lt_upper_bound; lia).
  lia.
Qed.

(** The address bytes [compose] writes are the kept prefix of the
    canonical masked address. *)
Lemma wire_addr_eq o bits :
  Forall is_byte o -> 1 <= bits <= 8 * Z.of_nat (length o) ->
  firstn (Z.to_nat ((bits + 7) / 8))
    (and_at o (Z.to_nat ((bits + 7) / 8 - 1)) (last_mask bits))
  = firstn (Z.to_nat ((bits + 7) / 8)) (mask_bits bits o).
Proof.
  intros Hf Hb. rewrite <- (mask_tail o bits Hf Hb).
  pose proof (prefix_bytes_le o bits ltac:(lia)) as Hle.
  rewrite firstn_app, firstn_firstn, Nat.min_id.
  rewrite firstn_length_le by (rewrite and_at_length; lia).
  rewrite Nat.sub_diag; simpl; rewrite app_nil_r; reflexivity.
Qed.

Lemma compose_addr_spec oc fam v o t :
  Forall is_byte o -> (length o <= 16)%nat ->
  0 <= source_prefix_len v <= 8 * Z.of_nat (length o) ->
  (oc = false \/ source_prefix_len v mod 8 <> 0) ->
  (length (octets t) + 4 + Z.to_nat ((source_prefix_len v + 7) / 8) <= capacity t)%nat ->
  compose_addr oc fam v o ((source_prefix_len v + 7) / 8) (last_mask (source_prefix_len v)) t
  = Ok (mkTarget (octets t ++ [fam / 256; fam mod 256; source_prefix_len v; scope_prefix_len v]
                  ++ firstn (Z.to_nat ((source_prefix_len v + 7) / 8))
                       (mask_bits (source_prefix_len v) o)) (capacity t)).
Proof.
  intros Hf Hlen Hb Hoc Hcap. set (bits := source_prefix_len v) in *.
  pose proof (prefix_bytes_le o bits Hb) as Hle.
  unfold compose_addr, compose_u16, compose_u8, append_slice.
  fits; cbn [bind octets capacity]. fits; cbn [bind octets capacity].
  fits; cbn [bind octets capacity].
  destruct (Z.eq_dec bits 0) as [H0|H0].
  - destruct Hoc as [->|Hoc]; [|rewrite H0 in Hoc; contradiction].
    rewrite H0. change ((0 + 7) / 8) with 0. unfold sub_usize.
    change (1 <=? 0) with false. cbv iota. cbn [bind].
    unfold get_mut_and.
    rewrite (proj2 (Z.ltb_ge _ _)) by lia.
    unfold slice_to. rewrite (proj2 (Z.leb_le _ _)) by lia. cbn [bind].
    rewrite H0 in Hcap. change (Z.to_nat ((0 + 7) / 8)) with 0%nat in Hcap.
    change (Z.to_nat 0) with 0%nat. cbn [firstn].
    rewrite (proj2 (Nat.leb_le _ _)) by (rewrite ?length_app; simpl; lia).
    rewrite <- !app_assoc. simpl. fold bits. rewrite H0. reflexivity.
  - unfold sub_usize. rewrite (proj2 (Z.leb_le 1 _)) by (apply Z.div_le_lower_bound; lia).
    cbn [bind]. unfold get_mut_and.
    rewrite (proj2 (Z.ltb_lt _ _)) by lia.
    unfold slice_to. rewrite and_at_length.
    rewrite (proj2 (Z.leb_le _ _)) by lia. cbn [bind].
    rewrite wire_addr_eq by (auto; lia).
    rewrite (proj2 (Nat.leb_le _ _))
      by (rewrite !length_app, firstn_length_le by (rewrite mask_bits_length; lia);
          simpl; lia).
    simpl. rewrite <- !app_assoc; reflexivity.
Qed.

Lemma parse_addr_buf_spec oc o bits rest :
  Forall is_byte o -> (length o <= 16)%nat ->
  0 <= bits <= 8 * Z.of_nat (length o) ->
  (oc = false \/ bits mod 8 <> 0) ->
  parse_addr_buf oc (length o) ((bits + 7) / 8) (last_mask bits)
    (firstn (Z.to_nat ((bits + 7) / 8)) (mask_bits bits o) ++ rest)
  = Ok (mask_bits bits o, rest).
Proof.
  intros Hf Hlen Hb Hoc.
  pose proof (prefix_bytes_le o bits Hb) as Hle.
  set (n := Z.to_nat ((bits + 7) / 8)).
  assert (Hn : (n <= length o)%nat) by (unfold n; lia).
  assert (HX : length (firstn n (mask_bits bits o)) = n)
    by (apply firstn_length_le; rewrite mask_bits_length; exact Hn).
  unfold parse_addr_buf. rewrite repeat_length.
  rewrite Z.gtb_ltb, (proj2 (Z.ltb_ge _ _)) by lia.
  unfold slice_to. rewrite repeat_length, (proj2 (Z.leb_le _ _)) by lia.
  cbn [bind]. fold n.
  rewrite firstn_length_le by (rewrite repeat_length; exact Hn).
  unfold parse_buf. rewrite length_app, HX.
  rewrite (proj2 (Nat.leb_le _ _)) by lia. cbn [bind].
  rewrite firstn_app, HX, Nat.sub_diag, firstn_firstn, Nat.min_id.
  assert (HS : skipn n (firstn n (mask_bits bits o)) = []) by (apply skipn_all2; lia).
  rewrite skipn_app, HX, Nat.sub_diag, HS.
  cbn [firstn skipn]. rewrite app_nil_r, app_nil_l, skipn_repeat.
  destruct (Z.eq_dec bits 0) as [H0|H0].
  - destruct Hoc as [->|Hoc]; [|rewrite H0 in Hoc; contradiction].
    subst bits. change n with 0%nat. cbn [firstn]. rewrite app_nil_l, Nat.sub_0_r.
    change ((0 + 7) / 8) with 0. unfold sub_usize.
    change (1 <=? 0) with false. cbv iota. cbn [bind].
    unfold get_mut_and. rewrite repeat_length.
    rewrite (proj2 (Z.ltb_ge _ _)) by lia.
    rewrite mask_bits_nonpos by lia. reflexivity.
  - unfold sub_usize. rewrite (proj2 (Z.leb_le 1 _)) by (apply Z.div_le_lower_bound; lia).
    cbn [bind]. unfold get_mut_and.
    rewrite length_app, HX, repeat_length.
    rewrite (proj2 (Z.ltb_lt _ _)) by lia.
    unfold n; rewrite <- wire_addr_eq by (auto; lia); fold n.
    assert (Hpb1 : 1 <= (bits + 7) / 8) by (apply Z.div_le_lower_bound; lia).
    rewrite and_at_app_l by (rewrite length_firstn, and_at_length; unfold n; lia).
    rewrite and_at_firstn, and_at_idem.
    unfold n; rewrite mask_tail by (auto; lia). reflexivity.
Qed.

Lemma wf_addr_facts a :
  wf_addr a ->
  Forall is_byte (addr_octets a) /\ (length (addr_octets a) <= 16)%nat /\
  addr_width_bits a = 8 * Z.of_nat (length (addr_octets a)).
Proof.
  destruct a as [o|o]; simpl; intros [Hl Hf]; rewrite Hl; repeat split; auto; lia.
Qed.

(** With the prefix within the family width, and with the shift in
    [prefix_bytes] not overflowing ([oc = false], or a prefix length that is
    not a multiple of 8), [compose] appends exactly [wire_form v]. *)
Lemma compose_wire_form oc v t :
  wf_client_subnet v ->
  source_prefix_len v <= addr_width_bits (addr v) ->
  (oc = false \/ source_prefix_len v mod 8 <> 0) ->
  (length (octets t) + length (wire_form v) <= capacity t)%nat ->
  compose oc v t = Ok (mkTarget (octets t ++ wire_form v) (capacity t)).
Proof.
  intros (Hs & Hsc & Ha) Hw Hoc Hcap.
  destruct (wf_addr_facts _ Ha) as (Hf & Hlen & Hwd).
  unfold compose. rewrite prefix_bytes_spec by (auto; unfold is_byte in Hs; lia).
  cbn [bind]. unfold append_all.
  unfold wire_form in *. rewrite length_app in Hcap.
  rewrite firstn_length_le in Hcap
    by (rewrite mask_bits_length; pose proof (prefix_bytes_le (addr_octets (addr v))
          (source_prefix_len v)); unfold is_byte in Hs; lia).
  rewrite Hwd in Hw. cbn [length] in Hcap.
  destruct (addr v) as [o|o]; cbn [addr_octets family_code] in Hf, Hlen, Hw, Hcap |- *;
    (rewrite compose_addr_spec by (auto; unfold is_byte in Hs; lia); reflexivity).
Qed.

(** [parse] reads [wire_form v] back as the canonical form of [v]. *)
Lemma parse_wire_form oc v rest :
  wf_client_subnet v ->
  source_prefix_len v <= addr_width_bits (addr v) ->
  (oc = false \/ source_prefix_len v mod 8 <> 0) ->
  parse oc (wire_form v ++ rest) = Ok (canonicalize v, rest).
Proof.
  intros (Hs & Hsc & Ha) Hw Hoc.
  destruct (wf_addr_facts _ Ha) as (Hf & Hlen & Hwd).
  destruct v as [spl scope a]; cbn [source_prefix_len scope_prefix_len addr] in *.
  unfold wire_form, parse, canonicalize.
  cbn [source_prefix_len scope_prefix_len addr app parse_u16 parse_u8 bind].
  rewrite prefix_bytes_spec by (auto; unfold is_byte in Hs; lia). cbn [bind].
  rewrite Hwd in Hw.
  destruct a as [o|o]; cbn [addr_octets family_code canonicalize_addr wf_addr] in *;
    destruct Ha as [Hl _];
    [change (0 * 256 + 1 =? 1) with true
    |change (0 * 256 + 2 =? 1) with false; change (0 * 256 + 2 =? 2) with true];
    cbv iota; rewrite <- Hl;
    rewrite parse_addr_buf_spec by (auto; unfold is_byte in Hs; lia);
    reflexivity.
Qed.

Lemma compose_parse_roundtrip oc v t rest :
  wf_client_subnet v ->
  source_prefix_len v <= addr_width_bits (addr v) ->
  (oc = false \/ source_prefix_len v mod 8 <> 0) ->
  (length (octets t) + length (wire_form v) <= capacity t)%nat ->
  exists t', compose oc v t = Ok t'
    /\ octets t' = octets t ++ wire_form v
    /\ parse oc (wire_form v ++ rest) = Ok (canonicalize v, rest).
Proof.
  intros Hwf Hw Hoc Hcap. eexists; split; [|split].
  - apply compose_wire_form; eauto.
  - reflexivity.
  - apply parse_wire_form; auto.
Qed.

Lemma compose_addr_header_short oc fam v o pb m t :
  (capacity t < length (octets t) + 4)%nat ->
  compose_addr oc fam v o pb m t = Err ShortBufErr.
Proof.
  intros Hcap. unfold compose_addr, compose_u16, compose_u8, append_slice.
  repeat (split_leb; cbn [bind octets capacity];
          rewrite ?length_app in *; cbn [length] in *; try lia); reflexivity.
Qed.

Lemma compose_addr_body_short oc fam v o t :
  Forall is_byte o -> (length o <= 16)%nat ->
  0 <= source_prefix_len v <= 8 * Z.of_nat (length o) ->
  (oc = false \/ source_prefix_len v mod 8 <> 0) ->
  (length (octets t) + 4 <= capacity t)%nat ->
  (capacity t < length (octets t) + 4 + Z.to_nat ((source_prefix_len v + 7) / 8))%nat ->
  compose_addr oc fam v o ((source_prefix_len v + 7) / 8) (last_mask (source_prefix_len v)) t
  = Err ShortBufErr.
Proof.
  intros Hf Hlen Hb Hoc Hcap Hshort. set (bits := source_prefix_len v) in *.
  pose proof (prefix_bytes_le o bits Hb) as Hle.
  unfold compose_addr, compose_u16, compose_u8, append_slice.
  fits; cbn [bind octets capacity]. fits; cbn [bind octets capacity].
  fits; cbn [bind octets capacity].
  destruct (Z.eq_dec bits 0) as [H0|H0].
  - rewrite H0 in Hshort. change (Z.to_nat ((0 + 7) / 8)) with 0%nat in Hshort. lia.
  - unfold sub_usize. rewrite (proj2 (Z.leb_le 1 _)) by (apply Z.div_le_lower_bound; lia).
    cbn [bind]. unfold get_mut_and.
    rewrite (proj2 (Z.ltb_lt _ _)) by lia.
    unfold slice_to. rewrite and_at_length.
    rewrite (proj2 (Z.leb_le _ _)) by lia. cbn [bind].
    rewrite (proj2 (Nat.leb_gt _ _)); [reflexivity|].
    rewrite !length_app, firstn_length_le by (rewrite and_at_length; lia).
    simpl; lia.
Qed.

Lemma compose_addr_over_width oc fam v o t :
  (length o <= 16)%nat ->
  8 * Z.of_nat (length o) < source_prefix_len v ->
  (oc = false \/ source_prefix_len v mod 8 <> 0) ->
  (length (octets t) + 4 <= capacity t)%nat ->
  compose_addr oc fam v o ((source_prefix_len v + 7) / 8) (last_mask (source_prefix_len v)) t
  = Panicked SliceIndexOutOfRange.
Proof.
  intros Hlen Hb Hoc Hcap. set (bits := source_prefix_len v) in *.
  assert (Hpb : Z.of_nat (length o) + 1 <= (bits + 7) / 8)
    by (apply Z.div_le_lower_bound; lia).
  unfold compose_addr, compose_u16, compose_u8, append_slice.
  fits; cbn [bind octets capacity]. fits; cbn [bind octets capacity].
  fits; cbn [bind octets capacity].
  unfold sub_usize. rewrite (proj2 (Z.leb_le 1 _)) by lia. cbn [bind].
  unfold slice_to.
  assert (Hl : length (get_mut_and o ((bits + 7) / 8 - 1) (last_mask bits)) = length o).
  { unfold get_mut_and. destruct (_ <? _); [apply and_at_length|reflexivity]. }
  rewrite Hl, (proj2 (Z.leb_gt _ _)) by lia. reflexivity.
Qed.

Lemma wire_form_length v :
  wf_client_subnet v -> source_prefix_len v <= addr_width_bits (addr v) ->
  length (wire_form v) = (4 + Z.to_nat ((source_prefix_len v + 7) / 8))%nat.
Proof.
  intros (Hs & Hsc & Ha) Hw.
  destruct (wf_addr_facts _ Ha) as (Hf & Hlen & Hwd). rewrite Hwd in Hw.
  pose proof (prefix_bytes_le (addr_octets (addr v)) (source_prefix_len v)) as Hle.
  unfold wire_form. rewrite length_app, firstn_length_le; [reflexivity|].
  rewrite mask_bits_length. unfold is_byte in Hs. lia.
Qed.

Lemma parse_addr_buf_too_long oc w pb m p :
  Z.of_nat w < pb ->
  parse_addr_buf oc w pb m p = Err (Form "invalid address length in client subnet option").
Proof.
  intros Hw. unfold parse_addr_buf. rewrite repeat_length, Z.gtb_ltb.
  rewrite (proj2 (Z.ltb_lt _ _)) by lia. reflexivity.
Qed.

Lemma parse_addr_buf_reads oc w pb m p :
  (w <= 16)%nat -> 0 <= pb <= Z.of_nat w -> (oc = false \/ 1 <= pb) ->
  ((Z.to_nat pb <= length p)%nat ->
     exists buf, parse_addr_buf oc w pb m p = Ok (buf, skipn (Z.to_nat pb) p)
                 /\ length buf = w)
  /\ ((length p < Z.to_nat pb)%nat -> parse_addr_buf oc w pb m p = Err ShortInput).
Proof.
  intros Hw Hpb Hoc. unfold parse_addr_buf. rewrite repeat_length, Z.gtb_ltb.
  rewrite (proj2 (Z.ltb_ge _ _)) by lia.
  unfold slice_to. rewrite repeat_length, (proj2 (Z.leb_le _ _)) by lia. cbn [bind].
  rewrite firstn_length_le by (rewrite repeat_length; lia).
  unfold parse_buf. split; intros Hp.
  - rewrite (proj2 (Nat.leb_le _ _)) by lia. cbn [bind].
    set (buf := firstn (Z.to_nat pb) p ++ skipn (Z.to_nat pb) (repeat 0 w)).
    assert (Hbuf : length buf = w).
    { unfold buf. rewrite length_app, firstn_length_le, length_skipn, repeat_length by lia.
      lia. }
    unfold sub_usize. destruct (Z.leb_spec 1 pb).
    + cbn [bind]. eexists; split; [reflexivity|].
      unfold get_mut_and. destruct (_ <? _); [rewrite and_at_length|]; exact Hbuf.
    + destruct Hoc as [->|Hoc]; [|lia]. cbn [bind].
      eexists; split; [reflexivity|].
      unfold get_mut_and. destruct (_ <? _); [rewrite and_at_length|]; exact Hbuf.
  - rewrite (proj2 (Nat.leb_gt _ _)) by lia. reflexivity.
Qed.

(** Without the overflow, a family other than 1 and 2 is a format error. *)
Lemma parse_bad_family oc hi lo spl scope rest :
  hi * 256 + lo <> 1 -> hi * 256 + lo <> 2 ->
  0 <= spl -> (oc = false \/ spl mod 8 <> 0) ->
  parse oc (hi :: lo :: spl :: scope :: rest)
  = Err (Form "invalid client subnet address family").
Proof.
  intros H1 H2 Hs Hoc. unfold parse. cbn [parse_u16 parse_u8 bind].
  rewrite prefix_bytes_spec by auto. cbn [bind].
  rewrite (proj2 (Z.eqb_neq _ _) H1), (proj2 (Z.eqb_neq _ _) H2). reflexivity.
Qed.

(** [prefix_bytes] panics on every multiple of 8 when overflow checks are
    enabled: [8 - bits % 8] is [8] there, never [0]. *)
Lemma prefix_bytes_multiple_of_8_checked {E} k :
  prefix_bytes (E := E) true (8 * k) = Panicked ShiftLeftOverflow.
Proof.
  unfold prefix_bytes. rewrite Z.mul_comm, Z.mod_mul by lia. reflexivity.
Qed.

(** Without overflow checks the shift amount [8] wraps to [0]: mask [0xff]. *)
Lemma prefix_bytes_multiple_of_8_release {E} k :
  prefix_bytes (E := E) false (8 * k) = Ok ((8 * k + 7) / 8, 255).
Proof.
  unfold prefix_bytes. rewrite Z.mul_comm, Z.mod_mul by lia. reflexivity.
Qed.

(** Without the overflow, [parse] rejects a prefix longer than the family
    width with a format error and otherwise reads exactly [prefix_bytes]
    address bytes. *)
Lemma parse_prefix_bytes_read oc fam w spl scope rest :
  (fam = 1 /\ w = 4%nat) \/ (fam = 2 /\ w = 16%nat) ->
  0 <= spl -> (oc = false \/ spl mod 8 <> 0) ->
  (Z.of_nat w < (spl + 7) / 8 ->
     parse oc (0 :: fam :: spl :: scope :: rest)
     = Err (Form "invalid address length in client subnet option"))
  /\ ((spl + 7) / 8 <= Z.of_nat w ->
      (Z.to_nat ((spl + 7) / 8) <= length rest)%nat ->
      exists v, parse oc (0 :: fam :: spl :: scope :: rest)
                = Ok (v, skipn (Z.to_nat ((spl + 7) / 8)) rest))
  /\ ((spl + 7) / 8 <= Z.of_nat w ->
      (length rest < Z.to_nat ((spl + 7) / 8))%nat ->
      parse oc (0 :: fam :: spl :: scope :: rest) = Err ShortInput).
Proof.
  intros Hfam Hs Hoc.
  assert (Hpb0 : 0 <= (spl + 7) / 8) by (apply Z.div_pos; lia).
  assert (Hoc' : oc = false \/ 1 <= (spl + 7) / 8).
  { destruct Hoc as [->|Hoc]; [left; reflexivity|right].
    apply Z.div_le_lower_bound; [lia|].
    destruct (Z.eq_dec spl 0) as [->|]; [contradiction|lia]. }
  unfold parse. cbn [parse_u16 parse_u8 bind].
  rewrite prefix_bytes_spec by auto. cbn [bind].
  destruct Hfam as [[-> ->]|[-> ->]]; cbn [Z.mul Z.add Z.eqb Pos.eqb];
    (split; [intros Hw; rewrite parse_addr_buf_too_long by exact Hw; reflexivity|]);
    (split; intros Hw Hp;
     lazymatch goal with
     | |- context [parse_addr_buf _ ?w _ _ _] =>
         destruct (parse_addr_buf_reads oc w ((spl + 7) / 8) (last_mask spl) rest)
           as [Hok Hshort]; try lia; auto
     end;
     [destruct (Hok Hp) as (buf & Hbuf & _); rewrite Hbuf; eexists; reflexivity
     |rewrite (Hshort Hp); reflexivity]).
Qed.

Lemma compose_addr_no_overflow_cases oc fam v o t :
  Forall is_byte o -> (length o <= 16)%nat ->
  0 <= source_prefix_len v <= 255 ->
  (oc = false \/ source_prefix_len v mod 8 <> 0) ->
  (source_prefix_len v <= 8 * Z.of_nat (length o) ->
     (capacity t < length (octets t) + 4 + Z.to_nat ((source_prefix_len v + 7) / 8))%nat ->
     compose_addr oc fam v o ((source_prefix_len v + 7) / 8) (last_mask (source_prefix_len v)) t
     = Err ShortBufErr)
  /\ (8 * Z.of_nat (length o) < source_prefix_len v ->
     (length (octets t) + 4 <= capacity t)%nat ->
     compose_addr oc fam v o ((source_prefix_len v + 7) / 8) (last_mask (source_prefix_len v)) t
     = Panicked SliceIndexOutOfRange).
Proof.
  intros Hf Hlen Hs Hoc. split; intros Hw Hcap.
  - destruct (Nat.lt_ge_cases (capacity t) (length (octets t) + 4)).
    + apply compose_addr_header_short; assumption.
    + apply compose_addr_body_short; auto; lia.
  - apply compose_addr_over_width; assumption.
Qed.

(** ** What a successful [parse] returns *)

Lemma land_byte b m : is_byte b -> 0 <= m -> is_byte (Z.land b m).
Proof.
  unfold is_byte. intros Hb Hm. split; [apply Z.land_nonneg; lia|].
  rewrite <- (land_keep8 b Hb) at 1. change (keep_mask 8) with (Z.ones 8).
  rewrite <- Z.land_assoc, (Z.land_comm (Z.ones 8)), Z.land_assoc, Z.land_ones by lia.
  pose proof (Z.mod_pos_bound (Z.land b m) (2 ^ 8) ltac:(lia)). simpl in *; lia.
Qed.

Lemma keep_mask_nonneg k : 0 <= k <= 8 -> 0 <= keep_mask k.
Proof.
  intros Hk. unfold keep_mask. apply Z.shiftl_nonneg.
  rewrite Z.ones_equiv. pose proof (Z.pow_pos_nonneg 2 k ltac:(lia) ltac:(lia)). lia.
Qed.

Lemma mask_bits_bytes bits o : Forall is_byte o -> Forall is_byte (mask_bits bits o).
Proof.
  intros Hf. revert bits; induction Hf as [|b o Hb Hf IH]; intros bits; simpl;
    constructor; auto.
  apply land_byte; [exact Hb|]. apply keep_mask_nonneg. lia.
Qed.

Lemma mask_bits_idem bits o : mask_bits bits (mask_bits bits o) = mask_bits bits o.
Proof.
  revert bits; induction o as [|b o IH]; intros bits; simpl; [reflexivity|].
  rewrite <- Z.land_assoc, Z.land_diag, IH. reflexivity.
Qed.

(** The address [parse_addr_buf] reads from raw bytes: the [prefix_bytes]
    bytes read, zero-padded to the family width, masked to [bits] bits. *)
Lemma parse_addr_buf_raw oc w bits body rest :
  (w <= 16)%nat -> Forall is_byte body ->
  0 <= bits <= 8 * Z.of_nat w ->
  length body = Z.to_nat ((bits + 7) / 8) ->
  (oc = false \/ bits mod 8 <> 0) ->
  parse_addr_buf oc w ((bits + 7) / 8) (last_mask bits) (body ++ rest)
  = Ok (mask_bits bits (body ++ repeat 0 (w - length body)), rest).
Proof.
  intros Hw Hf Hb Hlen Hoc.
  pose proof (prefix_bytes_le (repeat 0 w) bits ltac:(rewrite repeat_length; lia)) as Hle.
  rewrite repeat_length in Hle.
  set (n := Z.to_nat ((bits + 7) / 8)) in *.
  unfold parse_addr_buf. rewrite repeat_length.
  rewrite Z.gtb_ltb, (proj2 (Z.ltb_ge _ _)) by lia.
  unfold slice_to. rewrite repeat_length, (proj2 (Z.leb_le _ _)) by lia.
  cbn [bind]. fold n.
  rewrite firstn_length_le by (rewrite repeat_length; lia).
  unfold parse_buf. rewrite length_app, Hlen.
  rewrite (proj2 (Nat.leb_le _ _)) by lia. cbn [bind].
  rewrite firstn_app, Hlen, Nat.sub_diag, (firstn_all2 body) by lia.
  rewrite skipn_app, Hlen, Nat.sub_diag, (skipn_all2 body) by lia.
  cbn [firstn skipn]. rewrite !app_nil_r, app_nil_l, skipn_repeat.
  destruct (Z.eq_dec bits 0) as [H0|H0].
  - destruct Hoc as [->|Hoc]; [|rewrite H0 in Hoc; contradiction].
    subst bits. change n with 0%nat in *.
    destruct body; [|discriminate]. cbn [app].
    change ((0 + 7) / 8) with 0. unfold sub_usize.
    change (1 <=? 0) with false. cbv iota. cbn [bind].
    unfold get_mut_and. rewrite repeat_length.
    rewrite (proj2 (Z.ltb_ge _ _)) by lia.
    rewrite mask_bits_nonpos by lia. rewrite repeat_length. reflexivity.
  - assert (Hpb1 : 1 <= (bits + 7) / 8) by (apply Z.div_le_lower_bound; lia).
    unfold sub_usize. rewrite (proj2 (Z.leb_le 1 _)) by lia.
    cbn [bind]. unfold get_mut_and.
    rewrite length_app, repeat_length.
    rewrite (proj2 (Z.ltb_lt _ _)) by lia.
    set (o := body ++ repeat 0 (w - n)).
    assert (Ho : length o = w) by (unfold o; rewrite length_app, repeat_length; lia).
    assert (Hfo : Forall is_byte o).
    { unfold o. apply Forall_app; split; [exact Hf|].
      apply Forall_forall. intros x Hx. apply repeat_spec in Hx. subst x.
      unfold is_byte; lia. }
    rewrite <- (mask_tail o bits Hfo) by (rewrite Ho; lia).
    fold n. rewrite Ho. unfold o.
    rewrite and_at_app_l by lia.
    rewrite firstn_app, and_at_length, Hlen, Nat.sub_diag, firstn_all2
      by (rewrite and_at_length; lia).
    cbn [firstn]. rewrite app_nil_r. reflexivity.
Qed.

Lemma parse_addr_buf_ok oc w bits q buf rest :
  (w <= 16)%nat -> Forall is_byte q -> 0 <= bits ->
  (oc = false \/ bits mod 8 <> 0) ->
  parse_addr_buf oc w ((bits + 7) / 8) (last_mask bits) q = Ok (buf, rest) ->
  bits <= 8 * Z.of_nat w
  /\ (Z.to_nat ((bits + 7) / 8) <= length q)%nat
  /\ buf = mask_bits bits (firstn (Z.to_nat ((bits + 7) / 8)) q
                           ++ repeat 0 (w - Z.to_nat ((bits + 7) / 8)))
  /\ rest = skipn (Z.to_nat ((bits + 7) / 8)) q.
Proof.
  intros Hw Hf Hb Hoc Hp.
  assert (Hpb0 : 0 <= (bits + 7) / 8) by (apply Z.div_pos; lia).
  destruct (Z_le_gt_dec ((bits + 7) / 8) (Z.of_nat w)) as [Hpw|Hpw];
    [|rewrite parse_addr_buf_too_long in Hp by lia; discriminate].
  assert (Hbw : bits <= 8 * Z.of_nat w).
  { destruct (Z_le_gt_dec bits (8 * Z.of_nat w)) as [|Hgt]; [assumption|].
    assert (Z.of_nat w + 1 <= (bits + 7) / 8) by (apply Z.div_le_lower_bound; lia). lia. }
  set (n := Z.to_nat ((bits + 7) / 8)) in *.
  destruct (Nat.le_gt_cases n (length q)) as [Hq|Hq].
  - rewrite <- (firstn_skipn n q) in Hp.
    assert (Hfn : Forall is_byte (firstn n q)).
    { rewrite <- (firstn_skipn n q) in Hf. apply Forall_app in Hf. apply Hf. }
    assert (Hln : length (firstn n q) = n) by (apply firstn_length_le; exact Hq).
    rewrite parse_addr_buf_raw in Hp by (auto; lia).
    rewrite firstn_length_le in Hp by exact Hq.
    injection Hp as <- <-. auto.
  - assert (Hoc' : oc = false \/ 1 <= (bits + 7) / 8).
    { destruct Hoc as [->|Hoc]; [left; reflexivity|right].
      apply Z.div_le_lower_bound; [lia|].
      destruct (Z.eq_dec bits 0) as [->|]; [contradiction|lia]. }
    destruct (parse_addr_buf_reads oc w ((bits + 7) / 8) (last_mask bits) q)
      as [_ Hshort]; try lia; auto.
    rewrite (Hshort Hq) in Hp. discriminate.
Qed.

Lemma Forall_byte_padding body k :
  Forall is_byte body -> Forall is_byte (body ++ repeat 0 k).
Proof.
  intros Hf. apply Forall_app; split; [exact Hf|].
  apply Forall_forall. intros x Hx. apply repeat_spec in Hx. subst x.
  unfold is_byte; lia.
Qed.

(** Everything a successful [parse] of bytes guarantees: the value is one
    [compose] accepts (well formed, prefix within the family width, no
    overflow in [prefix_bytes]), it is already canonical, and exactly
    [4 + ceil(source_prefix_len / 8)] bytes were consumed. *)
Lemma parse_ok_facts oc p v rest :
  Forall is_byte p -> parse oc p = Ok (v, rest) ->
  wf_client_subnet v /\ source_prefix_len v <= addr_width_bits (addr v)
  /\ (oc = false \/ source_prefix_len v mod 8 <> 0)
  /\ canonicalize v = v
  /\ (4 + Z.to_nat ((source_prefix_len v + 7) / 8) <= length p)%nat
  /\ rest = skipn (4 + Z.to_nat ((source_prefix_len v + 7) / 8)) p.
Proof.
  intros Hf Hp. unfold parse in Hp.
  destruct p as [|hi [|lo [|spl [|scope q]]]]; cbn [parse_u16 parse_u8 bind] in Hp;
    try discriminate.
  inversion Hf as [|? ? _ Hf1]; inversion Hf1 as [|? ? _ Hf2].
  inversion Hf2 as [|? ? Hs Hf3]; inversion Hf3 as [|? ? Hsc Hq]; subst.
  unfold is_byte in Hs.
  assert (Hoc : oc = false \/ spl mod 8 <> 0).
  { destruct oc; [right|left; reflexivity]. intros H0.
    assert (E : spl = 8 * (spl / 8)) by (apply Z.div_exact; lia).
    rewrite E, prefix_bytes_multiple_of_8_checked in Hp. discriminate. }
  rewrite prefix_bytes_spec in Hp by (auto; lia). cbn [bind] in Hp.
  assert (Hbr : forall w (mk : list Z -> IpAddr) buf r,
    (w <= 16)%nat ->
    (forall o, wf_addr (mk o) <-> length o = w /\ Forall is_byte o) ->
    (forall o, addr_width_bits (mk o) = 8 * Z.of_nat w) ->
    (forall o, canonicalize_addr spl (mk o) = mk (mask_bits spl o)) ->
    parse_addr_buf oc w ((spl + 7) / 8) (last_mask spl) q = Ok (buf, r) ->
    Ok (ClientSubnet_new spl scope (mk buf), r) = Ok (E := ParseError) (v, rest) ->
    wf_client_subnet v /\ source_prefix_len v <= addr_width_bits (addr v)
    /\ (oc = false \/ source_prefix_len v mod 8 <> 0)
    /\ canonicalize v = v
    /\ (4 + Z.to_nat ((source_prefix_len v + 7) / 8)
          <= length (hi :: lo :: spl :: scope :: q))%nat
    /\ rest = skipn (4 + Z.to_nat ((source_prefix_len v + 7) / 8))
                (hi :: lo :: spl :: scope :: q)).
  { intros w mk buf r Hw Hwf Hwd Hcan Hb Hv. injection Hv as <- <-.
    destruct (parse_addr_buf_ok oc w spl q buf r Hw Hq ltac:(lia) Hoc Hb)
      as (Hbw & Hn & -> & ->).
    cbn [source_prefix_len scope_prefix_len addr length].
    set (n := Z.to_nat ((spl + 7) / 8)) in *.
    assert (Hfb : Forall is_byte (firstn n q)).
    { rewrite <- (firstn_skipn n q) in Hq. apply Forall_app in Hq. apply Hq. }
    split; [|split; [|split; [exact Hoc|split; [|split]]]].
    - unfold wf_client_subnet. cbn [source_prefix_len scope_prefix_len addr].
      split; [unfold is_byte; lia|split; [exact Hsc|]].
      apply Hwf. split.
      + assert (Hnw : (n <= w)%nat).
        { unfold n. assert ((spl + 7) / 8 < Z.of_nat w + 1)
            by (apply Z.div_lt_upper_bound; lia). lia. }
        rewrite mask_bits_length, length_app, repeat_length.
        rewrite firstn_length_le by exact Hn. lia.
      + apply mask_bits_bytes, Forall_byte_padding, Hfb.
    - rewrite Hwd. exact Hbw.
    - unfold canonicalize. cbn [source_prefix_len scope_prefix_len addr].
      rewrite Hcan, mask_bits_idem. reflexivity.
    - lia.
    - reflexivity. }
  destruct (hi * 256 + lo =? 1); [|destruct (hi * 256 + lo =? 2)]; try discriminate;
    lazymatch type of Hp with
    | bind (parse_addr_buf _ ?w _ _ _) _ = _ =>
        destruct (parse_addr_buf oc w ((spl + 7) / 8) (last_mask spl) q)
          as [[buf r]|e|e] eqn:Hb; cbn [bind] in Hp; try discriminate
    end;
    (eapply Hbr; [| | | |exact Hb|exact Hp];
     [lia| |intros o; reflexivity|intros o; reflexivity];
     intros o; reflexivity).
Qed.

(** Within the family width and without the overflow, [compose] fails with
    [ShortBuf] exactly when [wire_form v] does not fit. *)
Lemma compose_no_room oc v t :
  wf_client_subnet v ->
  source_prefix_len v <= addr_width_bits (addr v) ->
  (oc = false \/ source_prefix_len v mod 8 <> 0) ->
  (capacity t < length (octets t) + length (wire_form v))%nat ->
  compose oc v t = Err ShortBufErr.
Proof.
  intros Hwf Hw Hoc Hc. pose proof Hwf as (Hs & Hsc & Ha).
  destruct (wf_addr_facts _ Ha) as (Hf & Hlen & Hwd).
  rewrite (wire_form_length v Hwf Hw) in Hc. unfold is_byte in Hs.
  rewrite Hwd in Hw.
  unfold compose. rewrite prefix_bytes_spec by (auto; lia). cbn [bind].
  unfold append_all.
  destruct (addr v) as [o|o]; cbn [addr_octets] in *;
    lazymatch goal with
    | |- context [compose_addr oc ?fam v o] =>
        destruct (compose_addr_no_overflow_cases oc fam v o t Hf Hlen ltac:(lia) Hoc)
          as [H1 _]
    end;
    rewrite (H1 Hw ltac:(lia)); reflexivity.
Qed.

Lemma wire_form_canonicalize v : wire_form (canonicalize v) = wire_form v.
Proof.
  destruct v as [spl scope [o|o]]; unfold wire_form, canonicalize;
    cbn [source_prefix_len scope_prefix_len addr canonicalize_addr addr_octets family_code];
    rewrite mask_bits_idem; reflexivity.
Qed.

Lemma find_app_skip {A} (f : A -> bool) (l1 l2 : list A) (r : A) :
  f r = false -> find f (l1 ++ r :: l2) = find f (l1 ++ l2).
Proof.
  intros Hr. induction l1 as [|x l1 IH]; cbn [app find].
  - rewrite Hr. reflexivity.
  - destruct (f x); [reflexivity|exact IH].
Qed.

Lemma find_app_first {A} (f : A -> bool) (l1 l2 : list A) (r : A) :
  Forall (fun x => f x = false) l1 -> f r = true -> find f (l1 ++ r :: l2) = Some r.
Proof.
  intros Hl Hr. induction Hl as [|x l1 Hx _ IH]; cbn [app find].
  - rewrite Hr. reflexivity.
  - rewrite Hx. exact IH.
Qed.

(** ** [split_ascii_whitespace] *)

Lemma flush_word_spec word :
  ws_free word ->
  Forall (fun w => w <> EmptyString /\ ws_free (list_ascii_of_string w)) (flush_word word)
  /\ flat_map list_ascii_of_string (flush_word word) = word.
Proof.
  intros Hw. destruct word as [|c cs]; cbn [flush_word flat_map]; [split; auto|].
  rewrite list_ascii_of_string_of_list_ascii, app_nil_r. split; [|reflexivity].
  constructor; [|constructor]. split; [discriminate|].
  rewrite list_ascii_of_string_of_list_ascii. exact Hw.
Qed.

Lemma split_words_spec s word :
  ws_free word ->
  Forall (fun w => w <> EmptyString /\ ws_free (list_ascii_of_string w)) (split_words s word)
  /\ flat_map list_ascii_of_string (split_words s word)
     = word ++ filter (fun c => negb (is_ascii_whitespace c)) (list_ascii_of_string s).
Proof.
  revert word; induction s as [|c s IH]; intros word Hw; cbn [split_words list_ascii_of_string].
  - rewrite app_nil_r. apply flush_word_spec, Hw.
  - cbn [filter]. destruct (is_ascii_whitespace c) eqn:Ec; cbn [negb].
    + destruct (flush_word_spec word Hw) as [F1 E1].
      destruct (IH [] ltac:(constructor)) as [F2 E2].
      split; [apply Forall_app; auto|].
      rewrite flat_map_app, E1, E2. reflexivity.
    + destruct (IH (word ++ [c])) as [F E].
      { apply Forall_app; split; [exact Hw|constructor; auto]. }
      split; [exact F|]. rewrite E, <- app_assoc. reflexivity.
Qed.

Section ZoneLemmas.
Context {Name Rtype RecordData : Type} `{ZoneEnv Name Rtype RecordData}.

Lemma walk_rows_skip (pre post : list Row) (row : Row) :
  walk_row row = Ok None ->
  walk_rows (pre ++ row :: post) = walk_rows (pre ++ post).
Proof.
  intros Hrow. induction pre as [|r pre IH]; simpl.
  - rewrite Hrow; reflexivity.
  - destruct (walk_row r) as [[call|]| [] |p]; auto. rewrite IH; reflexivity.
Qed.

Lemma walk_rows_app (l1 l2 : list Row) :
  snd (walk_rows l1) = None ->
  walk_rows (l1 ++ l2) = (fst (walk_rows l1) ++ fst (walk_rows l2), snd (walk_rows l2)).
Proof.
  induction l1 as [|r l1 IH]; cbn [app walk_rows]; intros Hst.
  - destruct (walk_rows l2); reflexivity.
  - destruct (walk_row r) as [[c|]| [] |p].
    + destruct (walk_rows l1) as [cs st] eqn:E. cbn in Hst. subst st.
      rewrite (IH eq_refl). reflexivity.
    + exact (IH Hst).
    + discriminate.
Qed.

(** A row whose owner or type column is NULL or does not parse, or whose
    TTL or content column is NULL, makes the loop body panic in [unwrap]. *)
Lemma walk_row_broken (row : Row) :
  r_name row = None
  \/ (exists s, r_name row = Some s /\ name_bytes_from_str s = None)
  \/ r_type row = None
  \/ (exists s, r_type row = Some s /\ rtype_from_str s = None)
  \/ r_ttl row = None
  \/ r_content row = None ->
  walk_row row = Panicked UnwrapFailed.
Proof.
  intros Hb. unfold walk_row.
  destruct (r_name row) as [s1|] eqn:E1; cbn [unwrap bind]; [|reflexivity].
  destruct (name_bytes_from_str s1) as [o|] eqn:E2; cbn [unwrap bind]; [|reflexivity].
  destruct (r_type row) as [s3|] eqn:E3; cbn [unwrap bind]; [|reflexivity].
  destruct (rtype_from_str s3) as [t|] eqn:E4; cbn [unwrap bind]; [|reflexivity].
  destruct (r_ttl row) as [ttl|] eqn:E5; cbn [unwrap bind]; [|reflexivity].
  destruct (r_content row) as [c|] eqn:E6; cbn [unwrap bind]; [|reflexivity].
  exfalso.
  destruct Hb as [Hb|[[s [Hs Hn]]|[Hb|[[s [Hs Hn]]|[Hb|Hb]]]]]; congruence.
Qed.

End ZoneLemmas.

(** ** The claims *)

(** C1: a valid ClientSubnet (prefix 24 within the 32 bits of IPv4) for
    which [compose] does not produce bytes when overflow checks are
    enabled: [prefix_bytes 24] shifts [0xff] by 8 and panics. Without
    overflow checks the round trip yields the canonical form. *)
Theorem compose_checked_panics_prefix_24 :
  wf_client_subnet (ClientSubnet_new 24 0 (V4 [192; 0; 2; 0]))
  /\ source_prefix_len (ClientSubnet_new 24 0 (V4 [192; 0; 2; 0]))
     <= addr_width_bits (addr (ClientSubnet_new 24 0 (V4 [192; 0; 2; 0])))
  /\ (forall t, compose true (ClientSubnet_new 24 0 (V4 [192; 0; 2; 0])) t
                = Panicked ShiftLeftOverflow)
  /\ (exists t', compose false (ClientSubnet_new 24 0 (V4 [192; 0; 2; 0])) (mkTarget [] 512)
                 = Ok t'
       /\ parse false (octets t')
          = Ok (canonicalize (ClientSubnet_new 24 0 (V4 [192; 0; 2; 0])), [])).
Proof.
  split; [|split; [|split]].
  - unfold wf_client_subnet, is_byte; simpl.
    repeat split; try lia; repeat constructor; lia.
  - simpl; lia.
  - intros t; reflexivity.
  - eexists; split; reflexivity.
Qed.

(** C2: with overflow checks enabled, [prefix_bytes] panics for every
    prefix length divisible by 8 instead of using the mask [0xff], so
    [compose] of a prefix-0 value panics instead of emitting the header. *)
Theorem prefix_multiple_of_8_checked_panics :
  (forall k, prefix_bytes (E := ShortBuf) true (8 * k) = Panicked ShiftLeftOverflow)
  /\ (forall t, compose true (ClientSubnet_new 0 0 (V4 [192; 0; 2; 0])) t
                = Panicked ShiftLeftOverflow).
Proof.
  split.
  - intros k; apply prefix_bytes_multiple_of_8_checked.
  - intros t; reflexivity.
Qed.

(** C3: encoding 192.0.2.0 with source prefix 22 (scope 0) into a target
    with room for 7 bytes appends [0,1,22,0,192,0,0]; with prefix 23 it
    appends [0,1,23,0,192,0,2]. *)
Theorem compose_truncation_22_23 oc t :
  (length (octets t) + 7 <= capacity t)%nat ->
  compose oc (ClientSubnet_new 22 0 (V4 [192; 0; 2; 0])) t
  = Ok (mkTarget (octets t ++ [0; 1; 22; 0; 192; 0; 0]) (capacity t))
  /\ compose oc (ClientSubnet_new 23 0 (V4 [192; 0; 2; 0])) t
  = Ok (mkTarget (octets t ++ [0; 1; 23; 0; 192; 0; 2]) (capacity t)).
Proof.
  intros Hcap.
  assert (Hwf : forall spl, 0 <= spl < 256 ->
            wf_client_subnet (ClientSubnet_new spl 0 (V4 [192; 0; 2; 0]))).
  { intros spl Hs. unfold wf_client_subnet, is_byte; simpl.
    repeat split; try lia; repeat constructor; lia. }
  split.
  - rewrite compose_wire_form; [reflexivity|apply Hwf; lia|simpl; lia
                               |right; discriminate|exact Hcap].
  - rewrite compose_wire_form; [reflexivity|apply Hwf; lia|simpl; lia
                               |right; discriminate|exact Hcap].
Qed.

(** C4: decoding [0,1,22,0,192,0,2] yields prefix 22, scope 0 and the
    address 192.0.0.0: the last transmitted byte is masked to the prefix
    and the untransmitted fourth byte stays zero; exactly the 7 bytes are
    consumed. *)
Theorem parse_masks_prefix_22 oc rest :
  parse oc ([0; 1; 22; 0; 192; 0; 2] ++ rest)
  = Ok (ClientSubnet_new 22 0 (V4 [192; 0; 0; 0]), rest).
Proof. destruct oc; reflexivity. Qed.

(** C5: with overflow checks enabled, decoding a header with family 3 and
    source prefix 0 panics in [prefix_bytes], before the family is
    examined; without them it is the format error. *)
Theorem parse_family_3_checked_panics :
  parse true [0; 3; 0; 0] = Panicked ShiftLeftOverflow
  /\ parse false [0; 3; 0; 0] = Err (Form "invalid client subnet address family").
Proof. split; reflexivity. Qed.

(** C6: with overflow checks enabled, decoding an IPv4 option with source
    prefix 40 (5 address bytes, more than 4) panics in [prefix_bytes]
    instead of failing with the format error it gives without them. *)
Theorem parse_overlong_prefix_checked_panics :
  parse true [0; 1; 40; 0; 192; 0; 2; 0; 0] = Panicked ShiftLeftOverflow
  /\ parse false [0; 1; 40; 0; 192; 0; 2; 0; 0]
     = Err (Form "invalid address length in client subnet option").
Proof. split; reflexivity. Qed.

(** C3, witness: the hypothesis holds for an empty 512-byte target. *)
Lemma compose_truncation_22_23_witness :
  (length (octets (mkTarget [] 512)) + 7 <= capacity (mkTarget [] 512))%nat
  /\ compose true (ClientSubnet_new 22 0 (V4 [192; 0; 2; 0])) (mkTarget [] 512)
     = Ok (mkTarget [0; 1; 22; 0; 192; 0; 0] 512).
Proof.
  split; [simpl; lia|].
  apply (proj1 (compose_truncation_22_23 true (mkTarget [] 512) ltac:(simpl; lia))).
Defined.

(** C10, counterexample: an over-width value into a target with no room
    returns the capacity error rather than panicking, and with overflow
    checks enabled a value with prefix 8, within the IPv4 width, panics. *)
Lemma compose_width_claim_counterexample :
  compose false (ClientSubnet_new 40 0 (V4 [192; 0; 2; 0])) (mkTarget [] 0) = Err ShortBufErr
  /\ compose true (ClientSubnet_new 8 0 (V4 [192; 0; 2; 0])) (mkTarget [] 512)
     = Panicked ShiftLeftOverflow.
Proof. split; reflexivity. Qed.

(** C10, as amended: [compose] has no family-width check. Whenever the
    shift in [prefix_bytes] does not overflow (no overflow checks, or a
    source prefix length not divisible by 8): within the family width it
    never panics, appends the [4 + ceil(source_prefix_len / 8)] bytes of
    [wire_form v] when they fit and fails with [ShortBuf] otherwise; past
    the width it fails with [ShortBuf] when the 4 header bytes do not fit
    and otherwise panics on the address slice. *)
Theorem compose_width_behaviour oc v t :
  wf_client_subnet v ->
  (oc = false \/ source_prefix_len v mod 8 <> 0) ->
  (source_prefix_len v <= addr_width_bits (addr v) ->
     length (wire_form v) = (4 + Z.to_nat ((source_prefix_len v + 7) / 8))%nat
     /\ ((length (octets t) + length (wire_form v) <= capacity t)%nat ->
         compose oc v t = Ok (mkTarget (octets t ++ wire_form v) (capacity t)))
     /\ ((capacity t < length (octets t) + length (wire_form v))%nat ->
         compose oc v t = Err ShortBufErr))
  /\ (addr_width_bits (addr v) < source_prefix_len v ->
     ((length (octets t) + 4 <= capacity t)%nat ->
       compose oc v t = Panicked SliceIndexOutOfRange)
     /\ ((capacity t < length (octets t) + 4)%nat ->
       compose oc v t = Err ShortBufErr)).
Proof.
  intros Hwf Hoc. pose proof Hwf as (Hs & Hsc & Ha).
  destruct (wf_addr_facts _ Ha) as (Hf & Hlen & Hwd).
  unfold is_byte in Hs.
  assert (Hcases :
    (source_prefix_len v <= 8 * Z.of_nat (length (addr_octets (addr v))) ->
     (capacity t < length (octets t) + 4 + Z.to_nat ((source_prefix_len v + 7) / 8))%nat ->
     compose oc v t = Err ShortBufErr)
    /\ (8 * Z.of_nat (length (addr_octets (addr v))) < source_prefix_len v ->
     (length (octets t) + 4 <= capacity t)%nat ->
     compose oc v t = Panicked SliceIndexOutOfRange)).
  { unfold compose. rewrite prefix_bytes_spec by (auto; lia). cbn [bind].
    unfold append_all.
    destruct (addr v) as [o|o]; cbn [addr_octets] in *;
      lazymatch goal with
      | |- context [compose_addr oc ?fam v o] =>
          destruct (compose_addr_no_overflow_cases oc fam v o t Hf Hlen ltac:(lia) Hoc)
            as [H1 H2]
      end;
      (split; intros Hw Hc; [rewrite (H1 Hw Hc) | rewrite (H2 Hw Hc)]; reflexivity). }
  destruct Hcases as [Hshort Hover]. rewrite Hwd.
  split; intros Hw.
  - pose proof (wire_form_length v Hwf ltac:(lia)) as Hwl.
    split; [exact Hwl|split]; intros Hc.
    + apply compose_wire_form; auto; lia.
    + apply Hshort; lia.
  - split; intros Hc.
    + apply Hover; auto.
    + unfold compose. rewrite prefix_bytes_spec by (auto; lia). cbn [bind].
      unfold append_all.
      destruct (addr v) as [o|o];
        rewrite compose_addr_header_short by exact Hc; reflexivity.
Qed.

(** C10, witness: prefix 33 on IPv4, without overflow checks, into an
    empty 512-byte target panics on the address slice. *)
Lemma compose_width_behaviour_witness :
  wf_client_subnet (ClientSubnet_new 33 0 (V4 [192; 0; 2; 0]))
  /\ compose false (ClientSubnet_new 33 0 (V4 [192; 0; 2; 0])) (mkTarget [] 512)
     = Panicked SliceIndexOutOfRange.
Proof.
  assert (Hwf : wf_client_subnet (ClientSubnet_new 33 0 (V4 [192; 0; 2; 0]))).
  { unfold wf_client_subnet, is_byte; simpl.
    repeat split; try lia; repeat constructor; lia. }
  split; [exact Hwf|].
  apply (proj1 (proj2 (compose_width_behaviour false _ (mkTarget [] 512) Hwf
                         (or_introl eq_refl)) ltac:(simpl; lia))).
  simpl; lia.
Defined.

Section ZoneClaims.
Context {Name Rtype RecordData : Type} `{ZoneEnv Name Rtype RecordData}.

Lemma find_none {A} (f : A -> bool) (l : list A) :
  Forall (fun x => f x = false) l -> find f l = None.
Proof.
  induction 1 as [|x l Hx _ IH]; simpl; [reflexivity|]. rewrite Hx; exact IH.
Qed.

(** C7: when the database is reachable and no stored row matches the
    zone's apex, the query name and the query type, [query_async]
    completes with [Ok] of an NXDOMAIN answer without RRsets. *)
Theorem query_async_no_match_nxdomain (z : @DatabaseReadZone Name) (qname : Name)
    (qtype : Rtype) (rows : list Row) :
  db_pool z = DbUp rows ->
  Forall (fun r => row_matches (name_to_string (apex_name z)) (name_to_string qname)
                     (rtype_to_string qtype) r = false) rows ->
  query_async z qname qtype = Ok (mkAnswer (RecordData := RecordData) NXDOMAIN []).
Proof.
  intros Hdb Hnone. cbn [query_async DatabaseReadZone_ReadableZone].
  unfold DatabaseReadZone_query_async, fetch_one_record.
  rewrite Hdb, find_none by exact Hnone. reflexivity.
Qed.

(** C8: a stored record whose text [ZoneRecordData::scan] rejects for its
    type makes a direct query that fetches it complete with [Ok] of a
    SERVFAIL answer without RRsets; in a walk the row (whose owner and type
    parse) is skipped: the walk makes the same visitor calls, and ends the
    same way, as over the table without that row. *)
Theorem corrupt_record_servfail_and_skipped :
  (forall (z : @DatabaseReadZone Name) (qname : Name) (qtype : Rtype)
          (rows : list Row) (row : Row) (ttl : Z) (content : string),
     db_pool z = DbUp rows ->
     find (row_matches (name_to_string (apex_name z)) (name_to_string qname)
             (rtype_to_string qtype)) rows = Some row ->
     r_ttl row = Some ttl ->
     r_content row = Some content ->
     zone_record_data_scan qtype (split_ascii_whitespace content) = None ->
     query_async z qname qtype = Ok (mkAnswer (RecordData := RecordData) SERVFAIL []))
  /\ (forall (apex : Name) (pre post : list Row) (row : Row) (owner_s rtype_s : string)
             (owner : Name) (rtype : Rtype) (ttl : Z) (content : string),
     r_name row = Some owner_s ->
     name_bytes_from_str owner_s = Some owner ->
     r_type row = Some rtype_s ->
     rtype_from_str rtype_s = Some rtype ->
     r_ttl row = Some ttl ->
     r_content row = Some content ->
     zone_record_data_scan rtype (split_ascii_whitespace content) = None ->
     walk_async (DatabaseReadZone_new (DbUp (pre ++ row :: post)) apex)
     = walk_async (DatabaseReadZone_new (DbUp (pre ++ post)) apex)).
Proof.
  split.
  - intros z qname qtype rows row ttl content Hdb Hfind Httl Hc Hscan.
    cbn [query_async DatabaseReadZone_ReadableZone].
    unfold DatabaseReadZone_query_async, fetch_one_record.
    rewrite Hdb, Hfind, Httl. cbn [unwrap bind]. rewrite Hc. cbn [unwrap bind].
    rewrite Hscan. reflexivity.
  - intros apex pre post row owner_s rtype_s owner rtype ttl content
      Hn Ho Ht Hr Httl Hc Hscan.
    cbn [walk_async DatabaseReadZone_ReadableZone].
    unfold DatabaseReadZone_walk_async. cbn [db_pool apex_name].
    rewrite !filter_app. cbn [filter].
    destruct (sql_eq (d_name row) (name_to_string apex)); [|reflexivity].
    apply walk_rows_skip.
    unfold walk_row. rewrite Hn; cbn [unwrap bind]. rewrite Ho; cbn [unwrap bind].
    rewrite Ht; cbn [unwrap bind]. rewrite Hr; cbn [unwrap bind].
    rewrite Httl; cbn [unwrap bind]. rewrite Hc; cbn [unwrap bind].
    rewrite Hscan. reflexivity.
Qed.

(** C9: the database-backed zone declares itself asynchronous, and its
    synchronous [query] and [walk] panic with [unimplemented!()] on every
    input. *)
Theorem database_zone_sync_unimplemented (z : @DatabaseReadZone Name) (qname : Name)
    (qtype : Rtype) :
  @is_async Name Rtype RecordData _ _ z = true
  /\ @query Name Rtype RecordData _ _ z qname qtype = Panicked Unimplemented
  /\ @walk Name Rtype RecordData _ _ z = ([], Some Unimplemented).
Proof. repeat split. Qed.

End ZoneClaims.

Local Open Scope string_scope.

(** C7, witness: zone example.com. holding one A record for www; a query
    for mail of type A finds no row. *)
Lemma query_async_no_match_nxdomain_witness :
  query_async (DatabaseReadZone_new
                 (DbUp [mkRow "example.com." (Some "www.example.com.") (Some "A")
                          (Some "192.0.2.1") (Some 3600%Z)]) "example.com.")
    "mail.example.com." "A"
  = Ok (mkAnswer (RecordData := list string) NXDOMAIN []).
Proof.
  apply query_async_no_match_nxdomain with
    (rows := [mkRow "example.com." (Some "www.example.com.") (Some "A")
                (Some "192.0.2.1") (Some 3600%Z)]).
  - reflexivity.
  - repeat constructor.
Defined.

(** C8, witness: an A record whose text has two words is rejected by
    the scanner; the query answers SERVFAIL and the walk skips it. *)
Lemma corrupt_record_servfail_and_skipped_witness :
  query_async (DatabaseReadZone_new
                 (DbUp [mkRow "example.com." (Some "www.example.com.") (Some "A")
                          (Some "192.0.2.1 junk") (Some 3600%Z)]) "example.com.")
    "www.example.com." "A"
  = Ok (mkAnswer (RecordData := list string) SERVFAIL [])
  /\ walk_async (DatabaseReadZone_new
       (DbUp [mkRow "example.com." (Some "a.example.com.") (Some "A") (Some "192.0.2.1")
                (Some 60%Z);
              mkRow "example.com." (Some "www.example.com.") (Some "A")
                (Some "192.0.2.1 junk") (Some 3600%Z);
              mkRow "example.com." (Some "b.example.com.") (Some "A") (Some "192.0.2.2")
                (Some 60%Z)]) "example.com.")
     = walk_async (DatabaseReadZone_new
       (DbUp [mkRow "example.com." (Some "a.example.com.") (Some "A") (Some "192.0.2.1")
                (Some 60%Z);
              mkRow "example.com." (Some "b.example.com.") (Some "A") (Some "192.0.2.2")
                (Some 60%Z)]) "example.com.").
Proof.
  destruct corrupt_record_servfail_and_skipped as [Hq Hw]. split.
  - eapply Hq with (ttl := 3600%Z) (content := "192.0.2.1 junk"); reflexivity.
  - apply (Hw "example.com."
             [mkRow "example.com." (Some "a.example.com.") (Some "A") (Some "192.0.2.1")
                (Some 60%Z)]
             [mkRow "example.com." (Some "b.example.com.") (Some "A") (Some "192.0.2.2")
                (Some 60%Z)]
             (mkRow "example.com." (Some "www.example.com.") (Some "A")
                (Some "192.0.2.1 junk") (Some 3600%Z))
             "www.example.com." "A" "www.example.com." "A" 3600%Z "192.0.2.1 junk");
      reflexivity.
Defined.

Local Close Scope string_scope.

(** ** Further properties of the code *)

(** X1: when the shift in [prefix_bytes] does not overflow, a well-formed
    value within its family width that [compose] writes into a target with
    room is read back by [parse] as its canonical form, whatever follows. *)
Theorem compose_then_parse_no_overflow oc v t rest :
  wf_client_subnet v ->
  source_prefix_len v <= addr_width_bits (addr v) ->
  (oc = false \/ source_prefix_len v mod 8 <> 0) ->
  (length (octets t) + 4 + Z.to_nat ((source_prefix_len v + 7) / 8) <= capacity t)%nat ->
  exists t', compose oc v t = Ok t'
    /\ parse oc (skipn (length (octets t)) (octets t') ++ rest) = Ok (canonicalize v, rest).
Proof.
  intros Hwf Hw Hoc Hcap.
  rewrite <- Nat.add_assoc, <- (wire_form_length v Hwf Hw) in Hcap.
  eexists; split; [apply compose_wire_form; eauto|].
  cbn [octets]. rewrite skipn_app, skipn_all, Nat.sub_diag. cbn [skipn app].
  apply parse_wire_form; auto.
Qed.

(** X2: whatever bytes it is given, a value [parse] returns is one the
    Rust types admit, has its source prefix within the family width, and
    is canonical: every address bit past the source prefix is zero. *)
Theorem parse_result_canonical oc p v rest :
  Forall is_byte p -> parse oc p = Ok (v, rest) ->
  wf_client_subnet v /\ source_prefix_len v <= addr_width_bits (addr v)
  /\ canonicalize v = v.
Proof.
  intros Hf Hp. destruct (parse_ok_facts oc p v rest Hf Hp) as (H1 & H2 & _ & H4 & _).
  auto.
Qed.

(** X3: a successful [parse] consumes exactly the 4 header bytes and
    [ceil(source_prefix_len / 8)] address bytes, and returns the rest of
    the input untouched. *)
Theorem parse_consumes_exactly oc p v rest :
  Forall is_byte p -> parse oc p = Ok (v, rest) ->
  (4 + Z.to_nat ((source_prefix_len v + 7) / 8) <= length p)%nat
  /\ p = firstn (4 + Z.to_nat ((source_prefix_len v + 7) / 8)) p ++ rest.
Proof.
  intros Hf Hp. destruct (parse_ok_facts oc p v rest Hf Hp) as (_ & _ & _ & _ & H5 & H6).
  split; [exact H5|]. rewrite H6, firstn_skipn. reflexivity.
Qed.

(** X4: a value [parse] returned is a fixed point of the round trip:
    [compose] (in the same build) writes its [wire_form] when there is
    room, without panicking, and [parse] reads that back as the same value. *)
Theorem parse_then_compose_stable oc p v rest t r :
  Forall is_byte p -> parse oc p = Ok (v, rest) ->
  ((length (octets t) + length (wire_form v) <= capacity t)%nat ->
     compose oc v t = Ok (mkTarget (octets t ++ wire_form v) (capacity t)))
  /\ ((capacity t < length (octets t) + length (wire_form v))%nat ->
     compose oc v t = Err ShortBufErr)
  /\ parse oc (wire_form v ++ r) = Ok (v, r).
Proof.
  intros Hf Hp. destruct (parse_ok_facts oc p v rest Hf Hp) as (Hwf & Hw & Hoc & Hcan & _).
  split; [|split].
  - intros Hc. apply compose_wire_form; auto.
  - intros Hc. apply compose_no_room; auto.
  - rewrite parse_wire_form by auto. rewrite Hcan. reflexivity.
Qed.

(** X5: [compose] ignores the address bits past the source prefix: two
    well-formed values within the family width with the same canonical
    form give the same result on every target (when the shift in
    [prefix_bytes] does not overflow). *)
Theorem compose_ignores_bits_past_prefix oc v1 v2 t :
  wf_client_subnet v1 -> wf_client_subnet v2 ->
  source_prefix_len v1 <= addr_width_bits (addr v1) ->
  (oc = false \/ source_prefix_len v1 mod 8 <> 0) ->
  canonicalize v1 = canonicalize v2 ->
  compose oc v1 t = compose oc v2 t.
Proof.
  intros Hwf1 Hwf2 Hw Hoc Hcan.
  assert (Hwire : wire_form v1 = wire_form v2)
    by (rewrite <- wire_form_canonicalize, Hcan, wire_form_canonicalize; reflexivity).
  assert (Hspl : source_prefix_len v1 = source_prefix_len v2)
    by (apply (f_equal source_prefix_len) in Hcan; exact Hcan).
  assert (Hwd : addr_width_bits (addr v1) = addr_width_bits (addr v2)).
  { apply (f_equal addr) in Hcan. unfold canonicalize in Hcan. cbn [addr] in Hcan.
    destruct (addr v1), (addr v2); cbn in Hcan |- *; congruence. }
  assert (Hw2 : source_prefix_len v2 <= addr_width_bits (addr v2)) by congruence.
  assert (Hoc2 : oc = false \/ source_prefix_len v2 mod 8 <> 0) by (rewrite <- Hspl; exact Hoc).
  destruct (Nat.le_gt_cases (length (octets t) + length (wire_form v1)) (capacity t)) as [Hc|Hc].
  - rewrite (compose_wire_form oc v1 t), (compose_wire_form oc v2 t) by (auto; congruence).
    rewrite Hwire. reflexivity.
  - rewrite (compose_no_room oc v1 t), (compose_no_room oc v2 t) by (auto; congruence).
    reflexivity.
Qed.

(** X6: [parse] fails with a short-input error, not a format error or a
    panic, on fewer than 4 bytes, and on a valid header followed by fewer
    than [ceil(source_prefix_len / 8)] address bytes (when the shift in
    [prefix_bytes] does not overflow). *)
Theorem parse_short_input oc p fam w spl scope rest :
  ((length p < 4)%nat -> parse oc p = Err ShortInput)
  /\ ((fam = 1 /\ w = 4%nat) \/ (fam = 2 /\ w = 16%nat) ->
      0 <= spl -> (oc = false \/ spl mod 8 <> 0) ->
      (spl + 7) / 8 <= Z.of_nat w ->
      (length rest < Z.to_nat ((spl + 7) / 8))%nat ->
      parse oc (0 :: fam :: spl :: scope :: rest) = Err ShortInput).
Proof.
  split.
  - intros Hl. destruct p as [|a [|b [|c [|d q]]]]; cbn [length] in Hl; try lia;
      reflexivity.
  - intros Hfam Hs Hoc Hw Hr.
    destruct (parse_prefix_bytes_read oc fam w spl scope rest Hfam Hs Hoc) as (_ & _ & H).
    apply H; assumption.
Qed.

Ltac wf_concrete :=
  unfold wf_client_subnet, is_byte; cbn [source_prefix_len scope_prefix_len addr wf_addr];
  repeat split; try lia; repeat constructor; unfold is_byte; lia.

Ltac bytes_concrete := repeat constructor; unfold is_byte; lia.

(** X1, witness: 2001:db8::1/20, with overflow checks, into an empty
    512-byte target. *)
Lemma compose_then_parse_no_overflow_witness :
  wf_client_subnet (ClientSubnet_new 20 0 (V6 [32; 1; 13; 184; 0; 0; 0; 0; 0; 0; 0; 0; 0; 0; 0; 1]))
  /\ exists t',
    compose true (ClientSubnet_new 20 0 (V6 [32; 1; 13; 184; 0; 0; 0; 0; 0; 0; 0; 0; 0; 0; 0; 1]))
      (mkTarget [] 512) = Ok t'
    /\ parse true (skipn (length (octets (mkTarget [] 512))) (octets t') ++ [])
       = Ok (canonicalize (ClientSubnet_new 20 0
               (V6 [32; 1; 13; 184; 0; 0; 0; 0; 0; 0; 0; 0; 0; 0; 0; 1])), []).
Proof.
  assert (Hwf : wf_client_subnet
    (ClientSubnet_new 20 0 (V6 [32; 1; 13; 184; 0; 0; 0; 0; 0; 0; 0; 0; 0; 0; 0; 1])))
    by wf_concrete.
  split; [exact Hwf|].
  apply (compose_then_parse_no_overflow true _ (mkTarget [] 512) [] Hwf);
    cbn; lia.
Defined.

(** X2, witness: the bytes [0,1,22,0,192,0,2]. *)
Lemma parse_result_canonical_witness :
  Forall is_byte [0; 1; 22; 0; 192; 0; 2]
  /\ parse true [0; 1; 22; 0; 192; 0; 2] = Ok (ClientSubnet_new 22 0 (V4 [192; 0; 0; 0]), [])
  /\ (wf_client_subnet (ClientSubnet_new 22 0 (V4 [192; 0; 0; 0]))
      /\ source_prefix_len (ClientSubnet_new 22 0 (V4 [192; 0; 0; 0]))
         <= addr_width_bits (addr (ClientSubnet_new 22 0 (V4 [192; 0; 0; 0])))
      /\ canonicalize (ClientSubnet_new 22 0 (V4 [192; 0; 0; 0]))
         = ClientSubnet_new 22 0 (V4 [192; 0; 0; 0])).
Proof.
  assert (Hf : Forall is_byte [0; 1; 22; 0; 192; 0; 2]) by bytes_concrete.
  assert (Hp : parse true [0; 1; 22; 0; 192; 0; 2]
               = Ok (ClientSubnet_new 22 0 (V4 [192; 0; 0; 0]), [])) by reflexivity.
  split; [exact Hf|split; [exact Hp|]].
  exact (parse_result_canonical true _ _ _ Hf Hp).
Defined.

(** X3, witness: a 22-bit IPv4 option followed by two more bytes. *)
Lemma parse_consumes_exactly_witness :
  Forall is_byte [0; 1; 22; 0; 192; 0; 2; 7; 7]
  /\ parse false [0; 1; 22; 0; 192; 0; 2; 7; 7]
     = Ok (ClientSubnet_new 22 0 (V4 [192; 0; 0; 0]), [7; 7])
  /\ ((4 + Z.to_nat ((source_prefix_len (ClientSubnet_new 22 0 (V4 [192; 0; 0; 0])) + 7) / 8)%Z
        <= length ([0; 1; 22; 0; 192; 0; 2; 7; 7])%Z)%nat
      /\ [0; 1; 22; 0; 192; 0; 2; 7; 7]
         = firstn (4 + Z.to_nat ((source_prefix_len (ClientSubnet_new 22 0
                                   (V4 [192; 0; 0; 0])) + 7) / 8))
             [0; 1; 22; 0; 192; 0; 2; 7; 7] ++ [7; 7]).
Proof.
  assert (Hf : Forall is_byte [0; 1; 22; 0; 192; 0; 2; 7; 7]) by bytes_concrete.
  assert (Hp : parse false [0; 1; 22; 0; 192; 0; 2; 7; 7]
               = Ok (ClientSubnet_new 22 0 (V4 [192; 0; 0; 0]), [7; 7])) by reflexivity.
  split; [exact Hf|split; [exact Hp|]].
  exact (parse_consumes_exactly false _ _ _ Hf Hp).
Defined.

(** X4, witness: the value parsed from [0,1,22,0,192,0,2], re-encoded into
    an empty 512-byte target. *)
Lemma parse_then_compose_stable_witness :
  Forall is_byte [0; 1; 22; 0; 192; 0; 2]
  /\ parse true [0; 1; 22; 0; 192; 0; 2] = Ok (ClientSubnet_new 22 0 (V4 [192; 0; 0; 0]), [])
  /\ compose true (ClientSubnet_new 22 0 (V4 [192; 0; 0; 0])) (mkTarget [] 512)
     = Ok (mkTarget ([] ++ wire_form (ClientSubnet_new 22 0 (V4 [192; 0; 0; 0]))) 512)
  /\ parse true (wire_form (ClientSubnet_new 22 0 (V4 [192; 0; 0; 0])) ++ [])
     = Ok (ClientSubnet_new 22 0 (V4 [192; 0; 0; 0]), []).
Proof.
  assert (Hf : Forall is_byte [0; 1; 22; 0; 192; 0; 2]) by bytes_concrete.
  assert (Hp : parse true [0; 1; 22; 0; 192; 0; 2]
               = Ok (ClientSubnet_new 22 0 (V4 [192; 0; 0; 0]), [])) by reflexivity.
  destruct (parse_then_compose_stable true _ _ _ (mkTarget [] 512) [] Hf Hp)
    as (Hc & _ & Hr).
  split; [exact Hf|split; [exact Hp|split; [apply Hc; apply Nat.leb_le; reflexivity|exact Hr]]].
Defined.

(** X5, witness: 192.0.2.0/22 and 192.0.1.255/22 have the same canonical
    form 192.0.0.0/22. *)
Lemma compose_ignores_bits_past_prefix_witness :
  canonicalize (ClientSubnet_new 22 0 (V4 [192; 0; 2; 0]))
  = canonicalize (ClientSubnet_new 22 0 (V4 [192; 0; 1; 255]))
  /\ compose true (ClientSubnet_new 22 0 (V4 [192; 0; 2; 0])) (mkTarget [] 512)
     = compose true (ClientSubnet_new 22 0 (V4 [192; 0; 1; 255])) (mkTarget [] 512).
Proof.
  assert (Hc : canonicalize (ClientSubnet_new 22 0 (V4 [192; 0; 2; 0]))
               = canonicalize (ClientSubnet_new 22 0 (V4 [192; 0; 1; 255]))) by reflexivity.
  split; [exact Hc|].
  apply compose_ignores_bits_past_prefix; [wf_concrete|wf_concrete|cbn; lia|cbn; lia|exact Hc].
Defined.

(** X6, witness: two bytes, and an IPv4 header for 23 bits followed by
    only two address bytes. *)
Lemma parse_short_input_witness :
  parse true [0; 1] = Err ShortInput
  /\ parse true [0; 1; 23; 0; 192; 0] = Err ShortInput.
Proof.
  destruct (parse_short_input true [0; 1] 1 4%nat 23 0 [192; 0]) as [H1 H2].
  split; [apply H1; cbn; lia|].
  apply H2; [left; split; reflexivity|lia|right; cbn; lia|cbn; lia|cbn; lia].
Defined.

Section ZoneExtras.
Context {Name Rtype RecordData : Type} `{ZoneEnv Name Rtype RecordData}.

(** X7: [query_async] never completes with [Err] (no [OutOfZone], even
    for a name outside the zone): it completes with [Ok] of an answer, or
    panics in an [unwrap] of a NULL TTL or content column. *)
Theorem query_async_never_err (z : @DatabaseReadZone Name) (qname : Name) (qtype : Rtype) :
  (exists a, query_async (RecordData := RecordData) z qname qtype = Ok a)
  \/ query_async (RecordData := RecordData) z qname qtype = Panicked UnwrapFailed.
Proof.
  cbn [query_async DatabaseReadZone_ReadableZone]. unfold DatabaseReadZone_query_async.
  destruct (fetch_one_record _ _ _ _) as [row|]; [|left; eexists; reflexivity].
  destruct (r_ttl row) as [ttl|]; cbn [unwrap bind]; [|right; reflexivity].
  destruct (r_content row) as [c|]; cbn [unwrap bind]; [|right; reflexivity].
  left. destruct (zone_record_data_scan _ _); eexists; reflexivity.
Qed.

(** X8: when the first matching row has a TTL and a content that
    [ZoneRecordData::scan] accepts for the query type, [query_async]
    answers NOERROR with exactly one RRset: the query type, the row's TTL
    and the one scanned record. *)
Theorem query_async_answer (z : @DatabaseReadZone Name) (qname : Name) (qtype : Rtype)
    (rows : list Row) (row : Row) (ttl : Z) (content : string) (data : RecordData) :
  db_pool z = DbUp rows ->
  find (row_matches (name_to_string (apex_name z)) (name_to_string qname)
          (rtype_to_string qtype)) rows = Some row ->
  r_ttl row = Some ttl ->
  r_content row = Some content ->
  zone_record_data_scan qtype (split_ascii_whitespace content) = Some data ->
  query_async z qname qtype = Ok (mkAnswer NOERROR [mkRrset qtype ttl [data]]).
Proof.
  intros Hdb Hfind Httl Hc Hscan.
  cbn [query_async DatabaseReadZone_ReadableZone].
  unfold DatabaseReadZone_query_async, fetch_one_record.
  rewrite Hdb, Hfind, Httl. cbn [unwrap bind]. rewrite Hc. cbn [unwrap bind].
  rewrite Hscan. reflexivity.
Qed.

(** X9: the query reads one row ([LIMIT 1]): the answer is decided by the
    first matching row alone, whatever rows follow it. *)
Theorem query_async_first_match (apex qname : Name) (qtype : Rtype)
    (pre post : list Row) (row : Row) :
  Forall (fun r => row_matches (name_to_string apex) (name_to_string qname)
                     (rtype_to_string qtype) r = false) pre ->
  row_matches (name_to_string apex) (name_to_string qname) (rtype_to_string qtype) row = true ->
  query_async (RecordData := RecordData) (DatabaseReadZone_new (DbUp (pre ++ row :: post)) apex)
    qname qtype
  = query_async (DatabaseReadZone_new (DbUp [row]) apex) qname qtype.
Proof.
  intros Hpre Hrow. cbn [query_async DatabaseReadZone_ReadableZone].
  unfold DatabaseReadZone_query_async, fetch_one_record. cbn [db_pool apex_name].
  rewrite (find_app_first _ pre post row Hpre Hrow). cbn [find]. rewrite Hrow.
  reflexivity.
Qed.

(** X10: a NULL TTL or content column in the row the query fetches makes
    [query_async] panic in [unwrap]. *)
Theorem query_async_null_column_panics (z : @DatabaseReadZone Name) (qname : Name)
    (qtype : Rtype) (rows : list Row) (row : Row) :
  db_pool z = DbUp rows ->
  find (row_matches (name_to_string (apex_name z)) (name_to_string qname)
          (rtype_to_string qtype)) rows = Some row ->
  r_ttl row = None \/ r_content row = None ->
  query_async (RecordData := RecordData) z qname qtype = Panicked UnwrapFailed.
Proof.
  intros Hdb Hfind Hnull.
  cbn [query_async DatabaseReadZone_ReadableZone].
  unfold DatabaseReadZone_query_async, fetch_one_record.
  rewrite Hdb, Hfind.
  destruct (r_ttl row) as [ttl|]; cbn [unwrap bind]; [|reflexivity].
  destruct Hnull as [Hn|Hn]; [discriminate|]. rewrite Hn. reflexivity.
Qed.

(** X11: a row of another domain (its [D.name] differs from the apex) has
    no effect: removing it changes neither a query nor a walk. *)
Theorem other_domain_row_ignored (apex qname : Name) (qtype : Rtype)
    (l1 l2 : list Row) (row : Row) :
  sql_eq (d_name row) (name_to_string apex) = false ->
  query_async (RecordData := RecordData) (DatabaseReadZone_new (DbUp (l1 ++ row :: l2)) apex)
    qname qtype
  = query_async (DatabaseReadZone_new (DbUp (l1 ++ l2)) apex) qname qtype
  /\ walk_async (RecordData := RecordData) (DatabaseReadZone_new (DbUp (l1 ++ row :: l2)) apex)
     = walk_async (DatabaseReadZone_new (DbUp (l1 ++ l2)) apex).
Proof.
  intros Hd. split.
  - cbn [query_async DatabaseReadZone_ReadableZone].
    unfold DatabaseReadZone_query_async, fetch_one_record. cbn [db_pool apex_name].
    rewrite find_app_skip; [reflexivity|].
    unfold row_matches. rewrite Hd. reflexivity.
  - cbn [walk_async DatabaseReadZone_ReadableZone].
    unfold DatabaseReadZone_walk_async. cbn [db_pool apex_name].
    rewrite !filter_app. cbn [filter]. rewrite Hd. reflexivity.
Qed.

(** X12: walks compose: when the walk over the rows [l1] completes
    without panicking, the walk over [l1 ++ l2] makes the visitor calls of
    [l1], then those of [l2], and ends as the walk over [l2] ends. *)
Theorem walk_async_app (apex : Name) (l1 l2 : list Row) :
  snd (walk_async (RecordData := RecordData) (DatabaseReadZone_new (DbUp l1) apex)) = None ->
  walk_async (RecordData := RecordData) (DatabaseReadZone_new (DbUp (l1 ++ l2)) apex)
  = (fst (walk_async (DatabaseReadZone_new (DbUp l1) apex))
       ++ fst (walk_async (DatabaseReadZone_new (DbUp l2) apex)),
     snd (walk_async (DatabaseReadZone_new (DbUp l2) apex))).
Proof.
  cbn [walk_async DatabaseReadZone_ReadableZone].
  unfold DatabaseReadZone_walk_async. cbn [db_pool apex_name].
  intros Hst. rewrite filter_app. apply walk_rows_app. exact Hst.
Qed.

(** X13: unlike a record whose text does not scan, a row of the zone whose
    owner or type is NULL or does not parse, or whose TTL or content is
    NULL, aborts the walk: after the visitor calls for the rows before it,
    the walk panics and the rows after it are never visited. *)
Theorem walk_async_aborts_on_broken_row (apex : Name) (pre post : list Row) (row : Row) :
  sql_eq (d_name row) (name_to_string apex) = true ->
  r_name row = None
  \/ (exists s, r_name row = Some s /\ name_bytes_from_str s = None)
  \/ r_type row = None
  \/ (exists s, r_type row = Some s /\ rtype_from_str s = None)
  \/ r_ttl row = None
  \/ r_content row = None ->
  snd (walk_async (RecordData := RecordData) (DatabaseReadZone_new (DbUp pre) apex)) = None ->
  walk_async (RecordData := RecordData) (DatabaseReadZone_new (DbUp (pre ++ row :: post)) apex)
  = (fst (walk_async (DatabaseReadZone_new (DbUp pre) apex)), Some UnwrapFailed).
Proof.
  intros Hd Hbroken.
  cbn [walk_async DatabaseReadZone_ReadableZone].
  unfold DatabaseReadZone_walk_async. cbn [db_pool apex_name].
  intros Hst. rewrite filter_app. cbn [filter]. rewrite Hd.
  rewrite walk_rows_app by exact Hst. cbn [walk_rows].
  rewrite (walk_row_broken row Hbroken). cbn [fst snd]. rewrite app_nil_r. reflexivity.
Qed.

End ZoneExtras.

(** X14: [split_ascii_whitespace], which turns a record's content column
    into the words given to [ZoneRecordData::scan], yields non-empty words
    free of ASCII whitespace whose characters, in order, are exactly the
    non-whitespace characters of the content. *)
Theorem split_ascii_whitespace_words (s : string) :
  Forall (fun w => w <> EmptyString /\ ws_free (list_ascii_of_string w))
    (split_ascii_whitespace s)
  /\ flat_map list_ascii_of_string (split_ascii_whitespace s)
     = filter (fun c => negb (is_ascii_whitespace c)) (list_ascii_of_string s).
Proof.
  unfold split_ascii_whitespace. apply (split_words_spec s [] ltac:(constructor)).
Qed.

Local Open Scope string_scope.

(** X8, witness: zone example.com. with one A record for www. *)
Lemma query_async_answer_witness :
  query_async (DatabaseReadZone_new
                 (DbUp [mkRow "example.com." (Some "www.example.com.") (Some "A")
                          (Some " 192.0.2.1 ") (Some 3600%Z)]) "example.com.")
    "www.example.com." "A"
  = Ok (mkAnswer NOERROR [mkRrset "A" 3600%Z [["192.0.2.1"]]]).
Proof.
  apply (query_async_answer _ _ _
           [mkRow "example.com." (Some "www.example.com.") (Some "A")
              (Some " 192.0.2.1 ") (Some 3600%Z)]
           (mkRow "example.com." (Some "www.example.com.") (Some "A")
              (Some " 192.0.2.1 ") (Some 3600%Z))
           3600%Z " 192.0.2.1 "); reflexivity.
Defined.

(** X9, witness: a non-matching row, then two A records for www; the
    first of them decides the answer. *)
Lemma query_async_first_match_witness :
  query_async (RecordData := list string) (DatabaseReadZone_new
    (DbUp [mkRow "example.com." (Some "mail.example.com.") (Some "A") (Some "192.0.2.9")
             (Some 60%Z);
           mkRow "example.com." (Some "www.example.com.") (Some "A") (Some "192.0.2.1")
             (Some 3600%Z);
           mkRow "example.com." (Some "www.example.com.") (Some "A") (Some "192.0.2.2")
             (Some 60%Z)]) "example.com.") "www.example.com." "A"
  = query_async (DatabaseReadZone_new
      (DbUp [mkRow "example.com." (Some "www.example.com.") (Some "A") (Some "192.0.2.1")
               (Some 3600%Z)]) "example.com.") "www.example.com." "A".
Proof.
  apply (query_async_first_match "example.com." "www.example.com." "A"
           [mkRow "example.com." (Some "mail.example.com.") (Some "A") (Some "192.0.2.9")
              (Some 60%Z)]
           [mkRow "example.com." (Some "www.example.com.") (Some "A") (Some "192.0.2.2")
              (Some 60%Z)]
           (mkRow "example.com." (Some "www.example.com.") (Some "A") (Some "192.0.2.1")
              (Some 3600%Z)));
    [repeat constructor|reflexivity].
Defined.

(** X10, witness: the fetched row has a NULL TTL. *)
Lemma query_async_null_column_panics_witness :
  query_async (RecordData := list string) (DatabaseReadZone_new
    (DbUp [mkRow "example.com." (Some "www.example.com.") (Some "A") (Some "192.0.2.1")
             None]) "example.com.") "www.example.com." "A"
  = Panicked UnwrapFailed.
Proof.
  apply (query_async_null_column_panics _ _ _
           [mkRow "example.com." (Some "www.example.com.") (Some "A") (Some "192.0.2.1") None]
           (mkRow "example.com." (Some "www.example.com.") (Some "A") (Some "192.0.2.1") None));
    [reflexivity|reflexivity|left; reflexivity].
Defined.

(** X11, witness: a row of example.org. between two rows of example.com. *)
Lemma other_domain_row_ignored_witness :
  walk_async (RecordData := list string) (DatabaseReadZone_new
    (DbUp [mkRow "example.com." (Some "a.example.com.") (Some "A") (Some "192.0.2.1")
             (Some 60%Z);
           mkRow "example.org." None None None None;
           mkRow "example.com." (Some "b.example.com.") (Some "A") (Some "192.0.2.2")
             (Some 60%Z)]) "example.com.")
  = walk_async (DatabaseReadZone_new
    (DbUp [mkRow "example.com." (Some "a.example.com.") (Some "A") (Some "192.0.2.1")
             (Some 60%Z);
           mkRow "example.com." (Some "b.example.com.") (Some "A") (Some "192.0.2.2")
             (Some 60%Z)]) "example.com.").
Proof.
  apply (other_domain_row_ignored "example.com." "a.example.com." "A"
           [mkRow "example.com." (Some "a.example.com.") (Some "A") (Some "192.0.2.1")
              (Some 60%Z)]
           [mkRow "example.com." (Some "b.example.com.") (Some "A") (Some "192.0.2.2")
              (Some 60%Z)]
           (mkRow "example.org." None None None None)).
  reflexivity.
Defined.

(** X12, witness: two one-row tables of example.com. *)
Lemma walk_async_app_witness :
  walk_async (RecordData := list string)
    (DatabaseReadZone_new
       (DbUp (app [mkRow "example.com." (Some "a.example.com.") (Some "A")
                     (Some "192.0.2.1") (Some 60%Z)]
                  [mkRow "example.com." (Some "b.example.com.") (Some "A")
                     (Some "192.0.2.2") (Some 60%Z)]))
       "example.com.")
  = (app
       (fst (walk_async
               (DatabaseReadZone_new
                  (DbUp [mkRow "example.com." (Some "a.example.com.") (Some "A")
                           (Some "192.0.2.1") (Some 60%Z)])
                  "example.com.")))
       (fst (walk_async
               (DatabaseReadZone_new
                  (DbUp [mkRow "example.com." (Some "b.example.com.") (Some "A")
                           (Some "192.0.2.2") (Some 60%Z)])
                  "example.com."))),
     snd (walk_async (RecordData := list string)
            (DatabaseReadZone_new
               (DbUp [mkRow "example.com." (Some "b.example.com.") (Some "A")
                        (Some "192.0.2.2") (Some 60%Z)])
               "example.com."))).
Proof. apply walk_async_app. reflexivity. Defined.

(** X13, witness: the second row of example.com. has a NULL TTL; the third
    is never visited. *)
Lemma walk_async_aborts_on_broken_row_witness :
  walk_async (RecordData := list string) (DatabaseReadZone_new
    (DbUp [mkRow "example.com." (Some "a.example.com.") (Some "A") (Some "192.0.2.1")
             (Some 60%Z);
           mkRow "example.com." (Some "www.example.com.") (Some "A") (Some "192.0.2.3") None;
           mkRow "example.com." (Some "b.example.com.") (Some "A") (Some "192.0.2.2")
             (Some 60%Z)]) "example.com.")
  = ([("a.example.com.", mkRrset "A" 60%Z [["192.0.2.1"]])], Some UnwrapFailed).
Proof.
  etransitivity.
  - apply (walk_async_aborts_on_broken_row "example.com."
             [mkRow "example.com." (Some "a.example.com.") (Some "A") (Some "192.0.2.1")
                (Some 60%Z)]
             [mkRow "example.com." (Some "b.example.com.") (Some "A") (Some "192.0.2.2")
                (Some 60%Z)]
             (mkRow "example.com." (Some "www.example.com.") (Some "A") (Some "192.0.2.3")
                None));
      [reflexivity|right; right; right; right; left; reflexivity|reflexivity].
  - reflexivity.
Defined.
